(** * Forum backend: counters, authorization, likes and pagination

    A shallow embedding of the Express route handlers of the forum backend
    ([routes/posts.js], the threads router, and the Mongoose schemas of
    Post, Thread and Category), with the properties of its specification
    stated over them.

    Conventions of the embedding.
    - A collection is a finite map from [_id] to documents ([gmap N _]);
      an ObjectId is a natural number [N].
    - A JavaScript [Number] that holds a count or a timestamp is an integer
      [Z] (the values stay far below 2^53, where Number arithmetic is exact).
    - Text supplied by clients is a sequence of UTF-16 code units
      ([list N]), so that [length] is JavaScript's [.length]; the fixed
      messages of the responses are Rocq strings.
    - A handler is a computation over the store that either goes on with a
      value or has sent its response ([Handler]); an exception reaching the
      [catch] block of a handler is the response 500.
    - The clock is read once per request ([now]); the [updatedAt] stamp and
      the ids of embedded sub-documents, which Mongoose maintains and no
      handler reads, are not part of the documents. *)

From stdpp Require Import gmap list strings sorting.

Local Open Scope Z_scope.

(** ** Documents *)

(** Modelled from the spec: [models/User.js] and the authentication
    middleware are not among the sources.  The spec gives the user a role
    ([user] | [admin]); the handlers compare it with ['admin']. *)
Inductive Role := RoleUser | RoleAdmin.

#[global] Instance Role_eq_dec : EqDecision Role.
Proof. solve_decision. Defined.

(** [req.user] as the handlers read it: [_id] and [role]. *)
Record Actor := { actor_id : N; actor_role : Role }.

(** An element of a [likes] array. *)
Record Like := { like_user : N; like_createdAt : Z }.

(** An element of [Post.editHistory]. *)
Record Edit := { edit_content : list N; edit_editedAt : Z }.

Module User.
(** Modelled from the spec: [models/User.js] is not among the sources; the
    fields are those the routers select or increment. *)
Record t := mk {
  username : list N;
  avatar : list N;
  role : Role;
  postCount : Z;
  reputation : Z;
  isActive : bool;
  createdAt : Z
}.

Definition incPostCount (d : Z) (u : t) : t :=
  mk (username u) (avatar u) (role u) (postCount u + d) (reputation u)
     (isActive u) (createdAt u).
End User.

Module Category.
Record t := mk {
  name : list N;
  description : list N;
  color : list N;
  icon : list N;
  isActive : bool;
  threadCount : Z;
  postCount : Z;
  order : Z;
  createdAt : Z
}.

Definition incThreadCount (d : Z) (c : t) : t :=
  mk (name c) (description c) (color c) (icon c) (isActive c)
     (threadCount c + d) (postCount c) (order c) (createdAt c).

Definition incPostCount (d : Z) (c : t) : t :=
  mk (name c) (description c) (color c) (icon c) (isActive c)
     (threadCount c) (postCount c + d) (order c) (createdAt c).
End Category.

(** [Thread.lastReply]: the author is absent until the first reply. *)
Record LastReply := { lastReply_author : option N; lastReply_createdAt : Z }.

Module Thread.
Record t := mk {
  title : list N;
  content : list N;
  author : N;
  category : N;
  isPinned : bool;
  isLocked : bool;
  isActive : bool;
  views : Z;
  replyCount : Z;
  lastReply : LastReply;
  tags : list (list N);
  likes : list Like;
  createdAt : Z
}.

Definition incViews (d : Z) (x : t) : t :=
  mk (title x) (content x) (author x) (category x) (isPinned x) (isLocked x)
     (isActive x) (views x + d) (replyCount x) (lastReply x) (tags x)
     (likes x) (createdAt x).

Definition incReplyCount (d : Z) (x : t) : t :=
  mk (title x) (content x) (author x) (category x) (isPinned x) (isLocked x)
     (isActive x) (views x) (replyCount x + d) (lastReply x) (tags x)
     (likes x) (createdAt x).

Definition set_lastReply (v : LastReply) (x : t) : t :=
  mk (title x) (content x) (author x) (category x) (isPinned x) (isLocked x)
     (isActive x) (views x) (replyCount x) v (tags x) (likes x) (createdAt x).

Definition set_likes (v : list Like) (x : t) : t :=
  mk (title x) (content x) (author x) (category x) (isPinned x) (isLocked x)
     (isActive x) (views x) (replyCount x) (lastReply x) (tags x) v
     (createdAt x).

Definition set_isActive (v : bool) (x : t) : t :=
  mk (title x) (content x) (author x) (category x) (isPinned x) (isLocked x)
     v (views x) (replyCount x) (lastReply x) (tags x) (likes x)
     (createdAt x).

Definition set_title (v : list N) (x : t) : t :=
  mk v (content x) (author x) (category x) (isPinned x) (isLocked x)
     (isActive x) (views x) (replyCount x) (lastReply x) (tags x) (likes x)
     (createdAt x).

Definition set_content (v : list N) (x : t) : t :=
  mk (title x) v (author x) (category x) (isPinned x) (isLocked x)
     (isActive x) (views x) (replyCount x) (lastReply x) (tags x) (likes x)
     (createdAt x).

Definition set_tags (v : list (list N)) (x : t) : t :=
  mk (title x) (content x) (author x) (category x) (isPinned x) (isLocked x)
     (isActive x) (views x) (replyCount x) (lastReply x) v (likes x)
     (createdAt x).
End Thread.

Module Post.
Record t := mk {
  content : list N;
  author : N;
  thread : N;
  parentPost : option N;
  isActive : bool;
  likes : list Like;
  isEdited : bool;
  editedAt : option Z;
  editHistory : list Edit;
  createdAt : Z
}.

Definition set_isActive (v : bool) (x : t) : t :=
  mk (content x) (author x) (thread x) (parentPost x) v (likes x)
     (isEdited x) (editedAt x) (editHistory x) (createdAt x).

Definition set_likes (v : list Like) (x : t) : t :=
  mk (content x) (author x) (thread x) (parentPost x) (isActive x) v
     (isEdited x) (editedAt x) (editHistory x) (createdAt x).

Definition set_content (v : list N) (x : t) : t :=
  mk v (author x) (thread x) (parentPost x) (isActive x) (likes x)
     (isEdited x) (editedAt x) (editHistory x) (createdAt x).

Definition set_isEdited (v : bool) (x : t) : t :=
  mk (content x) (author x) (thread x) (parentPost x) (isActive x) (likes x)
     v (editedAt x) (editHistory x) (createdAt x).

Definition set_editedAt (v : option Z) (x : t) : t :=
  mk (content x) (author x) (thread x) (parentPost x) (isActive x) (likes x)
     (isEdited x) v (editHistory x) (createdAt x).

Definition set_editHistory (v : list Edit) (x : t) : t :=
  mk (content x) (author x) (thread x) (parentPost x) (isActive x) (likes x)
     (isEdited x) (editedAt x) v (createdAt x).
End Post.

(** ** Schema validation *)

(** [String.prototype.trim]: the code units of WhiteSpace and
    LineTerminator. *)
Definition isWhiteSpace (c : N) : bool :=
  bool_decide (c ∈ [9; 10; 11; 12; 13; 32; 160; 5760; 8232; 8233; 8239; 8287;
                     12288; 65279]%N)
  || ((8192 <=? c)%N && (c <=? 8202)%N).

Fixpoint trimStart (s : list N) : list N :=
  match s with
  | c :: s' => if isWhiteSpace c then trimStart s' else s
  | [] => []
  end.

Definition trim (s : list N) : list N := reverse (trimStart (reverse (trimStart s))).

Definition maxlength (n : N) (s : list N) : bool := (N.of_nat (length s) <=? n)%N.

(** [required] on a String path rejects the empty string. *)
Definition required (s : list N) : bool := negb (bool_decide (s = [])).

(** The validators of [postSchema]. *)
Definition Post_validate (p : Post.t) : bool :=
  required (Post.content p) && maxlength 5000 (Post.content p).

(** The validators of [threadSchema]; [title] and the tags are trimmed by
    their setters before they are stored. *)
Definition Thread_validate (x : Thread.t) : bool :=
  required (Thread.title x) && maxlength 200 (Thread.title x)
  && required (Thread.content x) && maxlength 10000 (Thread.content x)
  && forallb (maxlength 30) (Thread.tags x).

(** ** The store and the handler monad *)

Record Store := mkStore {
  users : gmap N User.t;
  categories : gmap N Category.t;
  threads : gmap N Thread.t;
  posts : gmap N Post.t
}.

Definition set_users (f : gmap N User.t → gmap N User.t) (s : Store) : Store :=
  mkStore (f (users s)) (categories s) (threads s) (posts s).
Definition set_categories (f : gmap N Category.t → gmap N Category.t) (s : Store) : Store :=
  mkStore (users s) (f (categories s)) (threads s) (posts s).
Definition set_threads (f : gmap N Thread.t → gmap N Thread.t) (s : Store) : Store :=
  mkStore (users s) (categories s) (f (threads s)) (posts s).
Definition set_posts (f : gmap N Post.t → gmap N Post.t) (s : Store) : Store :=
  mkStore (users s) (categories s) (threads s) (f (posts s)).

(** ** Responses *)

(** A populated user reference; the paths left out of the [select] list are
    [None]. *)
Record UserCard := {
  uc_id : N;
  uc_username : list N;
  uc_avatar : list N;
  uc_role : option Role;
  uc_postCount : option Z;
  uc_createdAt : option Z
}.

(** [populate(_, 'username avatar role postCount createdAt')] *)
Definition select_profile (id : N) (u : User.t) : UserCard :=
  {| uc_id := id; uc_username := User.username u; uc_avatar := User.avatar u;
     uc_role := Some (User.role u); uc_postCount := Some (User.postCount u);
     uc_createdAt := Some (User.createdAt u) |}.

(** [populate(_, 'username avatar role')] *)
Definition select_byline (id : N) (u : User.t) : UserCard :=
  {| uc_id := id; uc_username := User.username u; uc_avatar := User.avatar u;
     uc_role := Some (User.role u); uc_postCount := None; uc_createdAt := None |}.

(** [populate(_, 'username avatar')] *)
Definition select_name (id : N) (u : User.t) : UserCard :=
  {| uc_id := id; uc_username := User.username u; uc_avatar := User.avatar u;
     uc_role := None; uc_postCount := None; uc_createdAt := None |}.

(** [populate('category', 'name color')] *)
Record CategoryCard := { cc_id : N; cc_name : list N; cc_color : list N }.

(** [populate('parentPost', 'content author')] *)
Record ParentCard := { pc_id : N; pc_content : list N; pc_author : N }.

(** A post with [author] and [parentPost] populated ([null] when the
    referenced document does not exist). *)
Record PopulatedPost := {
  pp_id : N;
  pp_doc : Post.t;
  pp_author : option UserCard;
  pp_parentPost : option ParentCard
}.

(** A thread with [author] and [category] populated; [lastReply.author] is
    populated by the listing only ([None] elsewhere: the path keeps the id
    stored in the document). *)
Record PopulatedThread := {
  pt_id : N;
  pt_doc : Thread.t;
  pt_author : option UserCard;
  pt_category : option CategoryCard;
  pt_lastReplyAuthor : option (option UserCard)
}.

(** [{...post.toObject(), hasLiked, likeCount}] *)
Record PostView := { pv_post : PopulatedPost; pv_hasLiked : bool; pv_likeCount : nat }.

(** [{...thread.toObject(), hasLiked, likeCount}] *)
Record ThreadView := { tv_thread : PopulatedThread; tv_hasLiked : bool; tv_likeCount : nat }.

(** The [pagination] object; [totalItems] is sent under the key
    [totalPosts] or [totalThreads]. *)
Record Pagination := {
  currentPage : Z;
  totalPages : Z;
  totalItems : Z;
  hasNext : bool;
  hasPrev : bool
}.

Inductive Payload :=
  | PostsPage (posts : list PostView) (pagination : Pagination)
  | PostCreated (post : PostView)
  | PostUpdated (post : option PopulatedPost)
  | LikeToggled (liked : bool) (likeCount : nat)
  | ThreadsPage (threads : list PopulatedThread) (pagination : Pagination)
  | ThreadDetail (thread : ThreadView)
  | ThreadSaved (thread : option PopulatedThread).

(** The JSON envelope and its HTTP status.  The [error] detail of a 500,
    which depends on the process environment, is left out. *)
Record Response := {
  status : N;
  success : bool;
  message : option string;
  data : option Payload
}.

Definition failure (code : N) (msg : string) : Response :=
  {| status := code; success := false; message := Some msg; data := None |}.

Definition serverError : Response := failure 500 "Server error".

(** ** Handlers *)

(** A handler step runs on the store and either has sent the response
    ([inl]) or continues with a value ([inr]). *)
Definition Handler (A : Type) : Type := Store → Store * (Response + A).

#[global] Instance Handler_ret : MRet Handler := λ A a s, (s, inr a).

#[global] Instance Handler_bind : MBind Handler := λ A B k m s,
  match m s with
  | (s', inl r) => (s', inl r)
  | (s', inr a) => k a s'
  end.

(** [return res.status(..).json(..)] *)
Definition send {A} (r : Response) : Handler A := λ s, (s, inl r).

(** An exception: the [catch] block answers 500. *)
Definition throw {A} : Handler A := send serverError.

Definition gets {A} (f : Store → A) : Handler A := λ s, (s, inr (f s)).

Definition modify (f : Store → Store) : Handler unit := λ s, (f s, inr tt).

Definition run (h : Handler Empty_set) (s : Store) : Store * Response :=
  match h s with
  | (s', inl r) => (s', r)
  | (_, inr e) => match e with end
  end.

(** ** The Mongoose operations the handlers call *)

Definition whenActive {A} (isActive : A → bool) (o : option A) : option A :=
  match o with
  | Some d => if isActive d then Some d else None
  | None => None
  end.

(** [Model.findOne({ _id: id, isActive: true })] *)
Definition Thread_findOne (id : N) : Handler (option Thread.t) :=
  gets (λ s, whenActive Thread.isActive (threads s !! id)).

Definition Post_findOne (id : N) : Handler (option Post.t) :=
  gets (λ s, whenActive Post.isActive (posts s !! id)).

Definition Category_findOne (id : N) : Handler (option Category.t) :=
  gets (λ s, whenActive Category.isActive (categories s !! id)).

(** [Post.findOne({ _id: id, thread: threadId, isActive: true })] *)
Definition Post_findOne_in (id threadId : N) : Handler (option Post.t) :=
  gets (λ s, whenActive (λ p, bool_decide (Post.thread p = threadId) && Post.isActive p)
                        (posts s !! id)).

(** [doc.save()] of a new document: the validators run, and the unique
    index on [_id] refuses a key that is taken. *)
Definition Post_insert (id : N) (p : Post.t) : Handler unit := λ s,
  if negb (Post_validate p) then throw s
  else match posts s !! id with
       | Some _ => throw s
       | None => modify (set_posts <[id := p]>) s
       end.

Definition Thread_insert (id : N) (x : Thread.t) : Handler unit := λ s,
  if negb (Thread_validate x) then throw s
  else match threads s !! id with
       | Some _ => throw s
       | None => modify (set_threads <[id := x]>) s
       end.

(** [doc.save()] of a document read from the store. *)
Definition Post_save (id : N) (p : Post.t) : Handler unit :=
  if Post_validate p then modify (set_posts <[id := p]>) else throw.

Definition Thread_save (id : N) (x : Thread.t) : Handler unit :=
  if Thread_validate x then modify (set_threads <[id := x]>) else throw.

(** [Model.findByIdAndUpdate(id, update)]: nothing happens when no document
    has this id. *)
Definition Thread_findByIdAndUpdate (id : N) (f : Thread.t → Thread.t) : Handler unit :=
  modify (set_threads (alter f id)).

Definition User_findByIdAndUpdate (id : N) (f : User.t → User.t) : Handler unit :=
  modify (set_users (alter f id)).

Definition Category_findByIdAndUpdate (id : N) (f : Category.t → Category.t) : Handler unit :=
  modify (set_categories (alter f id)).

(** [populate]: the referenced document, whatever its [isActive] flag. *)
Definition populateUser (select : N → User.t → UserCard) (s : Store) (id : N) : option UserCard :=
  select id <$> users s !! id.

Definition populateCategory (s : Store) (id : N) : option CategoryCard :=
  (λ c, {| cc_id := id; cc_name := Category.name c; cc_color := Category.color c |})
    <$> categories s !! id.

Definition populateParent (s : Store) (ref : option N) : option ParentCard :=
  id ← ref;
  (λ p, {| pc_id := id; pc_content := Post.content p; pc_author := Post.author p |})
    <$> posts s !! id.

(** [.populate('author', 'username avatar role postCount createdAt')
     .populate('parentPost', 'content author')] *)
Definition populatePost (s : Store) (id : N) (p : Post.t) : PopulatedPost :=
  {| pp_id := id; pp_doc := p;
     pp_author := populateUser select_profile s (Post.author p);
     pp_parentPost := populateParent s (Post.parentPost p) |}.

Definition Post_findById_populated (id : N) : Handler (option PopulatedPost) :=
  gets (λ s, populatePost s id <$> posts s !! id).

(** Sorting as the store does it: documents with equal keys keep the order
    in which the collection scan meets them. *)
Fixpoint insertBy {A} (le : A → A → bool) (x : A) (l : list A) : list A :=
  match l with
  | [] => [x]
  | y :: l' => if le x y then x :: l else y :: insertBy le x l'
  end.

Definition sortBy {A} (le : A → A → bool) (l : list A) : list A :=
  foldr (insertBy le) [] l.

(** [.limit(limit).skip(skip)]: the store skips first; a negative skip is
    an error, a negative limit counts as its absolute value and limit 0 as
    no limit. *)
Definition skipLimit {A} (skip limit : Z) (l : list A) : option (list A) :=
  if skip <? 0 then None
  else if limit =? 0 then Some (drop (Z.to_nat skip) l)
  else Some (take (Z.to_nat (Z.abs limit)) (drop (Z.to_nat skip) l)).

(** [parseInt(req.query.x) || dflt]: the query gives the result of
    [parseInt], [None] for [NaN]. *)
Definition parseIntOr (q : option Z) (dflt : Z) : Z :=
  match q with
  | Some z => if z =? 0 then dflt else z
  | None => dflt
  end.

(** [Math.ceil(total / limit)] *)
Definition ceilDiv (total limit : Z) : Z := - ((- total) / limit).

Definition pagination (page limit total : Z) : Pagination :=
  {| currentPage := page;
     totalPages := ceilDiv total limit;
     totalItems := total;
     hasNext := page <? ceilDiv total limit;
     hasPrev := 1 <? page |}.

(** [likes.some(like => like.user.toString() === req.user._id.toString())] *)
Definition likedBy (uid : N) (likes : list Like) : bool :=
  existsb (λ like, bool_decide (like_user like = uid)) likes.

(** The like toggle both routers apply to the [likes] array:
    [find] the actor's entry; if there is one, [filter] the actor out,
    otherwise [push] a new entry. *)
Definition existingLike (uid : N) (likes : list Like) : option Like :=
  find (λ like, bool_decide (like_user like = uid)) likes.

Definition toggleLike (uid : N) (now : Z) (likes : list Like) : list Like :=
  match existingLike uid likes with
  | Some _ => filter (λ like, like_user like ≠ uid) likes
  | None => likes ++ [{| like_user := uid; like_createdAt := now |}]
  end.

(** [let hasLiked = false; if (req.user) { hasLiked = likes.some(..) }] *)
Definition hasLikedFor (actor : option Actor) (likes : list Like) : bool :=
  match actor with
  | Some user => likedBy (actor_id user) likes
  | None => false
  end.

(** ** routes/posts.js *)

Module PostRoutes.

(** [Post.find({ thread, isActive: true }).sort({ createdAt: 1 })
     .limit(limit * 1).skip((page - 1) * limit)] *)
Definition Post_find (threadId : N) (skip limit : Z) : Handler (list (N * Post.t)) := λ s,
  let found :=
    filter (λ d, Post.thread d.2 = threadId ∧ Post.isActive d.2) (map_to_list (posts s)) in
  let sorted := sortBy (λ a b, Post.createdAt a.2 <=? Post.createdAt b.2) found in
  match skipLimit skip limit sorted with
  | Some page => (s, inr page)
  | None => throw s
  end.

(** [Post.countDocuments({ thread, isActive: true })] *)
Definition Post_countDocuments (threadId : N) : Handler Z :=
  gets (λ s, Z.of_nat (length
    (filter (λ d, Post.thread d.2 = threadId ∧ Post.isActive d.2) (map_to_list (posts s))))).

(** GET /posts/thread/:threadId (optionalAuth) *)
Definition getPosts (user : option Actor) (threadId : N) (page_q limit_q : option Z)
  : Handler Empty_set :=
  let page := parseIntOr page_q 1 in
  let limit := parseIntOr limit_q 10 in
  thread ← Thread_findOne threadId;
  match thread with
  | None => send (failure 404 "Thread not found")
  | Some _ =>
    posts ← Post_find threadId ((page - 1) * limit) (limit * 1);
    total ← Post_countDocuments threadId;
    postsWithLikes ← gets (λ s, map (λ d : N * Post.t,
      {| pv_post := populatePost s d.1 d.2;
         pv_hasLiked := hasLikedFor user (Post.likes d.2);
         pv_likeCount := length (Post.likes d.2) |}) posts);
    send {| status := 200; success := true; message := None;
            data := Some (PostsPage postsWithLikes (pagination page limit total)) |}
  end.

(** The body of POST /posts; a missing [content] reads as the empty
    string, which is as falsy. *)
Record Body := {
  content : list N;
  threadId : option N;
  parentPostId : option N
}.

(** POST /posts (authenticateToken); [newId] is the [_id] the new document
    is given. *)
Definition createPost (user : Actor) (body : Body) (newId : N) (now : Z)
  : Handler Empty_set :=
  match threadId body with
  | None => send (failure 400 "Content and thread ID are required")
  | Some threadId =>
    if bool_decide (content body = [])
    then send (failure 400 "Content and thread ID are required")
    else
      thread ← Thread_findOne threadId;
      match thread with
      | None => send (failure 404 "Thread not found")
      | Some thread =>
        if Thread.isLocked thread
        then send (failure 403 "Thread is locked")
        else
          match parentPostId body with
          | Some parentPostId =>
            parentPost ← Post_findOne_in parentPostId threadId;
            match parentPost with
            | None => send (failure 404 "Parent post not found")
            | Some _ => mret ()
            end
          | None => mret ()
          end;;
          let post :=
            Post.mk (content body) (actor_id user) threadId (parentPostId body)
                    true [] false None [] now in
          Post_insert newId post;;
          Thread_findByIdAndUpdate threadId (λ t,
            Thread.set_lastReply
              {| lastReply_author := Some (actor_id user); lastReply_createdAt := now |}
              (Thread.incReplyCount 1 t));;
          User_findByIdAndUpdate (actor_id user) (User.incPostCount 1);;
          Category_findByIdAndUpdate (Thread.category thread) (Category.incPostCount 1);;
          populatedPost ← Post_findById_populated newId;
          match populatedPost with
          | None => throw
          | Some populatedPost =>
            send {| status := 201; success := true;
                    message := Some "Post created successfully";
                    data := Some (PostCreated
                      {| pv_post := populatedPost; pv_hasLiked := false;
                         pv_likeCount := 0 |}) |}
          end
      end
  end.

(** POST /posts/:id/like (authenticateToken) *)
Definition likePost (user : Actor) (id : N) (now : Z) : Handler Empty_set :=
  post ← Post_findOne id;
  match post with
  | None => send (failure 404 "Post not found")
  | Some post =>
    let existingLike := existingLike (actor_id user) (Post.likes post) in
    let post := Post.set_likes (toggleLike (actor_id user) now (Post.likes post)) post in
    Post_save id post;;
    send {| status := 200; success := true;
            message := Some (match existingLike with
                             | Some _ => "Post unliked"
                             | None => "Post liked"
                             end);
            data := Some (LikeToggled (match existingLike with
                                       | Some _ => false
                                       | None => true
                                       end)
                                      (length (Post.likes post))) |}
  end.

(** PUT /posts/:id (authenticateToken): "Update post (author only)". *)
Definition updatePost (user : Actor) (id : N) (content : list N) (now : Z)
  : Handler Empty_set :=
  if bool_decide (content = [])
  then send (failure 400 "Content is required")
  else
    post ← Post_findOne id;
    match post with
    | None => send (failure 404 "Post not found")
    | Some post =>
      if bool_decide (Post.author post ≠ actor_id user)
      then send (failure 403 "Not authorized to edit this post")
      else
        let post := Post.set_editHistory
          (Post.editHistory post ++
             [{| edit_content := Post.content post; edit_editedAt := now |}]) post in
        let post := Post.set_content content post in
        let post := Post.set_isEdited true post in
        let post := Post.set_editedAt (Some now) post in
        Post_save id post;;
        populatedPost ← Post_findById_populated id;
        send {| status := 200; success := true;
                message := Some "Post updated successfully";
                data := Some (PostUpdated populatedPost) |}
    end.

(** [Post.findOne({ _id: id, isActive: true }).populate('thread')]: the
    post together with its thread document, [None] when the thread does
    not exist. *)
Definition Post_findOne_populate_thread (id : N)
  : Handler (option (Post.t * option Thread.t)) :=
  gets (λ s, (λ p, (p, threads s !! Post.thread p))
               <$> whenActive Post.isActive (posts s !! id)).

(** DELETE /posts/:id (authenticateToken): "Delete post (author or admin
    only)".  Reading [post.thread._id] of a post whose thread is missing
    throws after the post was saved. *)
Definition deletePost (user : Actor) (id : N) : Handler Empty_set :=
  found ← Post_findOne_populate_thread id;
  match found with
  | None => send (failure 404 "Post not found")
  | Some (post, thread) =>
    if bool_decide (Post.author post ≠ actor_id user)
       && bool_decide (actor_role user ≠ RoleAdmin)
    then send (failure 403 "Not authorized to delete this post")
    else
      let post := Post.set_isActive false post in
      Post_save id post;;
      match thread with
      | None => throw
      | Some thread =>
        Thread_findByIdAndUpdate (Post.thread post) (Thread.incReplyCount (-1));;
        User_findByIdAndUpdate (Post.author post) (User.incPostCount (-1));;
        Category_findByIdAndUpdate (Thread.category thread) (Category.incPostCount (-1));;
        send {| status := 200; success := true;
                message := Some "Post deleted successfully"; data := None |}
      end
  end.

End PostRoutes.

(** ** The threads router *)

Module ThreadRoutes.

(** [req.query.sort || 'recent']: the three named orders, and every other
    value. *)
Inductive SortParam := popular | replies | likes | recent.

(** The query string of GET /threads; an absent [search] reads as the
    empty string, which is as falsy. *)
Record Query := {
  page : option Z;
  limit : option Z;
  category : option N;
  search : list N;
  sort : SortParam
}.

(** One descending sort key, then the rest of the sort specification. *)
Definition desc (ka kb : Z) (rest : comparison) : comparison :=
  match kb ?= ka with
  | Eq => rest
  | c => c
  end.

(** [sortOption].  No like entry has a path [length], so the first key of
    the [likes] order is null for every thread and only [createdAt]
    orders them. *)
Definition sortOption (sort : SortParam) (a b : Thread.t) : comparison :=
  match sort with
  | popular =>
    desc (Thread.views a) (Thread.views b)
      (desc (Thread.createdAt a) (Thread.createdAt b) Eq)
  | replies =>
    desc (Thread.replyCount a) (Thread.replyCount b)
      (desc (Thread.createdAt a) (Thread.createdAt b) Eq)
  | likes =>
    desc (Thread.createdAt a) (Thread.createdAt b) Eq
  | recent =>
    desc (Z.b2z (Thread.isPinned a)) (Z.b2z (Thread.isPinned b))
      (desc (lastReply_createdAt (Thread.lastReply a))
            (lastReply_createdAt (Thread.lastReply b))
         (desc (Thread.createdAt a) (Thread.createdAt b) Eq))
  end.

Definition notGt (c : comparison) : bool :=
  match c with
  | Gt => false
  | _ => true
  end.

(** [.populate('author', 'username avatar role').populate('category',
    'name color')] *)
Definition populateThread (select : N → User.t → UserCard) (s : Store) (id : N)
    (x : Thread.t) : PopulatedThread :=
  {| pt_id := id; pt_doc := x;
     pt_author := populateUser select s (Thread.author x);
     pt_category := populateCategory s (Thread.category x);
     pt_lastReplyAuthor := None |}.

(** ... and [.populate('lastReply.author', 'username avatar')] *)
Definition populateListed (s : Store) (id : N) (x : Thread.t) : PopulatedThread :=
  {| pt_id := id; pt_doc := x;
     pt_author := populateUser select_byline s (Thread.author x);
     pt_category := populateCategory s (Thread.category x);
     pt_lastReplyAuthor :=
       Some (a ← lastReply_author (Thread.lastReply x); populateUser select_name s a) |}.

Definition Thread_findById_populated (id : N) : Handler (option PopulatedThread) :=
  gets (λ s, populateThread select_byline s id <$> threads s !! id).

(** [Thread.findOneAndUpdate({ _id: id, isActive: true }, update,
    { new: true })]: the document after the update. *)
Definition Thread_findOneAndUpdate (id : N) (f : Thread.t → Thread.t)
  : Handler (option Thread.t) := λ s,
  match whenActive Thread.isActive (threads s !! id) with
  | Some x => (set_threads <[id := f x]> s, inr (Some (f x)))
  | None => (s, inr None)
  end.

Section Listing.

(** The store's text index: whether a thread matches
    [{ $text: { $search: search } }]. *)
Variable textSearch : list N → Thread.t → bool.

(** [query]: [isActive], and [category] and [$text] when given. *)
Definition matches (q : Query) (x : Thread.t) : bool :=
  Thread.isActive x
  && match category q with
     | Some c => bool_decide (Thread.category x = c)
     | None => true
     end
  && (bool_decide (search q = []) || textSearch (search q) x).

(** [Thread.find(query).populate(..).sort(sortOption).limit(limit * 1)
    .skip((page - 1) * limit)] *)
Definition Thread_find (q : Query) (skip limit : Z) : Handler (list PopulatedThread) := λ s,
  let found := filter (λ d, matches q d.2) (map_to_list (threads s)) in
  let sorted := sortBy (λ a b, notGt (sortOption (sort q) a.2 b.2)) found in
  match skipLimit skip limit sorted with
  | Some page => (s, inr (map (λ d, populateListed s d.1 d.2) page))
  | None => throw s
  end.

(** [Thread.countDocuments(query)] *)
Definition Thread_countDocuments (q : Query) : Handler Z :=
  gets (λ s, Z.of_nat (length
    (filter (λ d, matches q d.2) (map_to_list (threads s))))).

(** GET /threads (optionalAuth) *)
Definition getThreads (user : option Actor) (q : Query) : Handler Empty_set :=
  let page := parseIntOr (page q) 1 in
  let limit := parseIntOr (limit q) 10 in
  threads ← Thread_find q ((page - 1) * limit) (limit * 1);
  total ← Thread_countDocuments q;
  send {| status := 200; success := true; message := None;
          data := Some (ThreadsPage threads (pagination page limit total)) |}.

End Listing.

(** GET /threads/:id (optionalAuth) *)
Definition getThread (user : option Actor) (id : N) : Handler Empty_set :=
  thread ← Thread_findOneAndUpdate id (Thread.incViews 1);
  match thread with
  | None => send (failure 404 "Thread not found")
  | Some thread =>
    populated ← gets (λ s, populateThread select_profile s id thread);
    send {| status := 200; success := true; message := None;
            data := Some (ThreadDetail
              {| tv_thread := populated;
                 tv_hasLiked := hasLikedFor user (Thread.likes thread);
                 tv_likeCount := length (Thread.likes thread) |}) |}
  end.

(** The body of POST /threads; absent strings read as empty. *)
Record Body := {
  title : list N;
  content : list N;
  category_id : option N;
  tags : option (list (list N))
}.

(** [tags || []] *)
Definition orEmpty {A} (o : option (list A)) : list A :=
  match o with
  | Some l => l
  | None => []
  end.

(** POST /threads (authenticateToken) *)
Definition createThread (user : Actor) (body : Body) (newId : N) (now : Z)
  : Handler Empty_set :=
  match category_id body with
  | None => send (failure 400 "Title, content, and category are required")
  | Some category =>
    if bool_decide (title body = []) || bool_decide (content body = [])
    then send (failure 400 "Title, content, and category are required")
    else
      categoryExists ← Category_findOne category;
      match categoryExists with
      | None => send (failure 400 "Invalid category")
      | Some _ =>
        let thread :=
          Thread.mk (trim (title body)) (content body) (actor_id user) category
                    false false true 0 0
                    {| lastReply_author := None; lastReply_createdAt := now |}
                    (map trim (orEmpty (tags body))) [] now in
        Thread_insert newId thread;;
        Category_findByIdAndUpdate category (Category.incThreadCount 1);;
        User_findByIdAndUpdate (actor_id user) (User.incPostCount 1);;
        populatedThread ← Thread_findById_populated newId;
        send {| status := 201; success := true;
                message := Some "Thread created successfully";
                data := Some (ThreadSaved populatedThread) |}
      end
  end.

(** POST /threads/:id/like (authenticateToken) *)
Definition likeThread (user : Actor) (id : N) (now : Z) : Handler Empty_set :=
  thread ← Thread_findOne id;
  match thread with
  | None => send (failure 404 "Thread not found")
  | Some thread =>
    let existingLike := existingLike (actor_id user) (Thread.likes thread) in
    let thread :=
      Thread.set_likes (toggleLike (actor_id user) now (Thread.likes thread)) thread in
    Thread_save id thread;;
    send {| status := 200; success := true;
            message := Some (match existingLike with
                             | Some _ => "Thread unliked"
                             | None => "Thread liked"
                             end);
            data := Some (LikeToggled (match existingLike with
                                       | Some _ => false
                                       | None => true
                                       end)
                                      (length (Thread.likes thread))) |}
  end.

(** The body of PUT /threads/:id. *)
Record Changes := {
  new_title : list N;
  new_content : list N;
  new_tags : option (list (list N))
}.

(** PUT /threads/:id (authenticateToken): "Update thread (author or admin
    only)". *)
Definition updateThread (user : Actor) (id : N) (body : Changes) : Handler Empty_set :=
  thread ← Thread_findOne id;
  match thread with
  | None => send (failure 404 "Thread not found")
  | Some thread =>
    if bool_decide (Thread.author thread ≠ actor_id user)
       && bool_decide (actor_role user ≠ RoleAdmin)
    then send (failure 403 "Not authorized to edit this thread")
    else
      let thread :=
        if bool_decide (new_title body = []) then thread
        else Thread.set_title (trim (new_title body)) thread in
      let thread :=
        if bool_decide (new_content body = []) then thread
        else Thread.set_content (new_content body) thread in
      let thread :=
        match new_tags body with
        | Some tags => Thread.set_tags (map trim tags) thread
        | None => thread
        end in
      Thread_save id thread;;
      populatedThread ← Thread_findById_populated id;
      send {| status := 200; success := true;
              message := Some "Thread updated successfully";
              data := Some (ThreadSaved populatedThread) |}
  end.

(** DELETE /threads/:id (authenticateToken): "Delete thread (author or
    admin only)". *)
Definition deleteThread (user : Actor) (id : N) : Handler Empty_set :=
  thread ← Thread_findOne id;
  match thread with
  | None => send (failure 404 "Thread not found")
  | Some thread =>
    if bool_decide (Thread.author thread ≠ actor_id user)
       && bool_decide (actor_role user ≠ RoleAdmin)
    then send (failure 403 "Not authorized to delete this thread")
    else
      let thread := Thread.set_isActive false thread in
      Thread_save id thread;;
      Category_findByIdAndUpdate (Thread.category thread) (Category.incThreadCount (-1));;
      send {| status := 200; success := true;
              message := Some "Thread deleted successfully"; data := None |}
  end.

End ThreadRoutes.

(** ** Requests *)

(** The requests the two routers serve, with what each takes from the
    request ([req.user], [req.params], [req.query], [req.body]) and from
    the platform (the fresh [_id], the clock). *)
Inductive Request :=
  | GetPosts (user : option Actor) (threadId : N) (page limit : option Z)
  | CreatePost (user : Actor) (body : PostRoutes.Body) (newId : N) (now : Z)
  | LikePost (user : Actor) (id : N) (now : Z)
  | UpdatePost (user : Actor) (id : N) (content : list N) (now : Z)
  | DeletePost (user : Actor) (id : N)
  | GetThreads (user : option Actor) (q : ThreadRoutes.Query)
  | GetThread (user : option Actor) (id : N)
  | CreateThread (user : Actor) (body : ThreadRoutes.Body) (newId : N) (now : Z)
  | LikeThread (user : Actor) (id : N) (now : Z)
  | UpdateThread (user : Actor) (id : N) (body : ThreadRoutes.Changes)
  | DeleteThread (user : Actor) (id : N).

Definition route (textSearch : list N → Thread.t → bool) (req : Request)
  : Handler Empty_set :=
  match req with
  | GetPosts user threadId page limit => PostRoutes.getPosts user threadId page limit
  | CreatePost user body newId now => PostRoutes.createPost user body newId now
  | LikePost user id now => PostRoutes.likePost user id now
  | UpdatePost user id content now => PostRoutes.updatePost user id content now
  | DeletePost user id => PostRoutes.deletePost user id
  | GetThreads user q => ThreadRoutes.getThreads textSearch user q
  | GetThread user id => ThreadRoutes.getThread user id
  | CreateThread user body newId now => ThreadRoutes.createThread user body newId now
  | LikeThread user id now => ThreadRoutes.likeThread user id now
  | UpdateThread user id body => ThreadRoutes.updateThread user id body
  | DeleteThread user id => ThreadRoutes.deleteThread user id
  end.

Definition handle (textSearch : list N → Thread.t → bool) (req : Request) (s : Store)
  : Store * Response :=
  run (route textSearch req) s.

(** ** What the properties observe *)

Definition replyCountOf (s : Store) (thread : N) : option Z :=
  Thread.replyCount <$> threads s !! thread.

Definition lastReplyOf (s : Store) (thread : N) : option LastReply :=
  Thread.lastReply <$> threads s !! thread.

Definition userPostCountOf (s : Store) (user : N) : option Z :=
  User.postCount <$> users s !! user.

Definition categoryPostCountOf (s : Store) (category : N) : option Z :=
  Category.postCount <$> categories s !! category.

Definition categoryThreadCountOf (s : Store) (category : N) : option Z :=
  Category.threadCount <$> categories s !! category.

Definition viewsOf (s : Store) (thread : N) : option Z :=
  Thread.views <$> threads s !! thread.

(** The ids of the users in a [likes] array, in array order. *)
Definition likers (likes : list Like) : list N := like_user <$> likes.

Definition postLikers (s : Store) (id : N) : list N :=
  match posts s !! id with
  | Some p => likers (Post.likes p)
  | None => []
  end.

Definition threadLikers (s : Store) (id : N) : list N :=
  match threads s !! id with
  | Some x => likers (Thread.likes x)
  | None => []
  end.

(** The invariant of the data model: every [likes] array holds at most one
    entry per user. *)
Definition likesUnique (s : Store) : Prop :=
  (∀ id x, threads s !! id = Some x → NoDup (likers (Thread.likes x)))
  ∧ (∀ id p, posts s !! id = Some p → NoDup (likers (Post.likes p))).

#[global] Instance likesUnique_dec (s : Store) : Decision (likesUnique s).
Proof.
  apply and_dec.
  - apply (map_Forall_dec (λ _ x, NoDup (likers (Thread.likes x)))).
  - apply (map_Forall_dec (λ _ p, NoDup (likers (Post.likes p)))).
Defined.

Definition uniqueLikes (likes : list Like) : Prop := NoDup (likers likes).

(** [keeps h Q]: run on a store that satisfies [likesUnique], the step [h]
    leaves a store that satisfies it, and a value that satisfies [Q] when it
    goes on. *)
Definition keeps {A} (h : Handler A) (Q : A → Prop) : Prop :=
  ∀ s, likesUnique s →
    likesUnique (h s).1 ∧ ∀ a, (h s).2 = inr a → Q a.

(** The authorization predicate in the words of the specification:
    [actor.id == entity.author.id] or [actor.role == admin]. *)
Definition canMutate (actor : Actor) (author : N) : bool :=
  bool_decide (actor_id actor = author) || bool_decide (actor_role actor = RoleAdmin).

(** [k] is the ceiling of [n / l]. *)
Definition isCeil (n l k : Z) : Prop := (k - 1) * l < n ≤ k * l.

(** The number of documents of a collection that satisfy a condition. *)
Definition countWhere {A} (P : A → Prop) `{!∀ x, Decision (P x)} (m : gmap N A) : Z :=
  Z.of_nat (size (filter (λ d : N * A, P d.2) m)).

(** A response with every [hasLiked] field blanked. *)
Definition blankPayload (d : Payload) : Payload :=
  match d with
  | PostsPage posts pg =>
    PostsPage (map (λ v, {| pv_post := pv_post v; pv_hasLiked := false;
                            pv_likeCount := pv_likeCount v |}) posts) pg
  | PostCreated v =>
    PostCreated {| pv_post := pv_post v; pv_hasLiked := false;
                   pv_likeCount := pv_likeCount v |}
  | ThreadDetail v =>
    ThreadDetail {| tv_thread := tv_thread v; tv_hasLiked := false;
                    tv_likeCount := tv_likeCount v |}
  | other => other
  end.

Definition blankHasLiked (r : Response) : Response :=
  {| status := status r; success := success r; message := message r;
     data := blankPayload <$> data r |}.

(** ** The scenario of the specification

    Category "General"; user A opens thread T in it; user B replies with
    post P; P is soft-deleted. *)
Module Scenario.

(** Text given by its ASCII spelling. *)
Definition text (s : string) : list N :=
  (λ c, N.of_nat (Ascii.nat_of_ascii c)) <$> String.list_ascii_of_string s.

Definition A : Actor := {| actor_id := 1; actor_role := RoleUser |}.
Definition B : Actor := {| actor_id := 2; actor_role := RoleUser |}.
Definition root : Actor := {| actor_id := 3; actor_role := RoleAdmin |}.

Definition General : N := 10.
Definition Other : N := 11.
Definition T : N := 20.
Definition P : N := 30.

Definition account (name : string) (role : Role) : User.t :=
  User.mk (text name) [] role 0 0 true 0.

Definition section (name : string) : Category.t :=
  Category.mk (text name) (text "about") (text "#3B82F6") (text "MessageSquare")
              true 0 0 0 0.

Definition s0 : Store :=
  mkStore (list_to_map [(1%N, account "A" RoleUser); (2%N, account "B" RoleUser);
                        (3%N, account "root" RoleAdmin)])
          (list_to_map [(General, section "General"); (Other, section "Other")])
          ∅ ∅.

Definition noSearch : list N → Thread.t → bool := λ _ _, true.

(** A opens T at time 100. *)
Definition s1 : Store :=
  (run (ThreadRoutes.createThread A
          {| ThreadRoutes.title := text "Hello"; ThreadRoutes.content := text "First";
             ThreadRoutes.category_id := Some General; ThreadRoutes.tags := None |}
          T 100) s0).1.

Definition reply : PostRoutes.Body :=
  {| PostRoutes.content := text "Welcome"; PostRoutes.threadId := Some T;
     PostRoutes.parentPostId := None |}.

(** B replies with P at time 200. *)
Definition s2 : Store := (run (PostRoutes.createPost B reply P 200) s1).1.

(** B soft-deletes P. *)
Definition s3 : Store := (run (PostRoutes.deletePost B P) s2).1.

(** P as B created it. *)
Definition post_P : Post.t :=
  Post.mk (text "Welcome") 2 T None true [] false None [] 200.

(** The same thread, locked. *)
Definition s1_locked : Store :=
  set_threads (alter (λ x,
    Thread.mk (Thread.title x) (Thread.content x) (Thread.author x) (Thread.category x)
              (Thread.isPinned x) true (Thread.isActive x) (Thread.views x)
              (Thread.replyCount x) (Thread.lastReply x) (Thread.tags x)
              (Thread.likes x) (Thread.createdAt x)) T) s1.

(** T as A created it, after B's reply. *)
Definition thread_T : Thread.t :=
  Thread.mk (text "Hello") (text "First") 1 General false false true 0 1
            {| lastReply_author := Some 2%N; lastReply_createdAt := 200 |} [] [] 100.

(** B likes P at time 250. *)
Definition s2_liked : Store := (run (PostRoutes.likePost B P 250) s2).1.

(** The admin soft-deletes P. *)
Definition s3_root : Store := (run (PostRoutes.deletePost root P) s2).1.

(** The first page of the listing, ten threads a page. *)
Definition firstPage : ThreadRoutes.Query :=
  {| ThreadRoutes.page := Some 1; ThreadRoutes.limit := Some 10;
     ThreadRoutes.category := None; ThreadRoutes.search := [];
     ThreadRoutes.sort := ThreadRoutes.recent |}.

Definition thread_T_locked : Thread.t :=
  Thread.mk (text "Hello") (text "First") 1 General false true true 0 0
            {| lastReply_author := None; lastReply_createdAt := 100 |} [] [] 100.

End Scenario.

(** ** What one request can do to the store *)

(** The post as PUT /posts/:id rewrites it. *)
Definition edited (content : list N) (now : Z) (post : Post.t) : Post.t :=
  Post.set_editedAt (Some now)
    (Post.set_isEdited true
       (Post.set_content content
          (Post.set_editHistory
             (Post.editHistory post ++
                [{| edit_content := Post.content post; edit_editedAt := now |}])
             post))).

(** The thread as POST /threads builds it. *)
Definition fresh (user : Actor) (body : ThreadRoutes.Body) (category : N) (now : Z)
  : Thread.t :=
  Thread.mk (trim (ThreadRoutes.title body)) (ThreadRoutes.content body) (actor_id user) category
            false false true 0 0
            {| lastReply_author := None; lastReply_createdAt := now |}
            (map trim (ThreadRoutes.orEmpty (ThreadRoutes.tags body))) [] now.

(** The thread as PUT /threads/:id rewrites it. *)
Definition revised (body : ThreadRoutes.Changes) (thread : Thread.t) : Thread.t :=
  let thread :=
    if bool_decide (ThreadRoutes.new_title body = []) then thread
    else Thread.set_title (trim (ThreadRoutes.new_title body)) thread in
  let thread :=
    if bool_decide (ThreadRoutes.new_content body = []) then thread
    else Thread.set_content (ThreadRoutes.new_content body) thread in
  match ThreadRoutes.new_tags body with
  | Some tags => Thread.set_tags (map trim tags) thread
  | None => thread
  end.

(** The store after a request of the posts or threads router is the store
    before it, changed in one of these ways.  An edit of a post keeps its
    [thread], [author], [parentPost], [isActive] and [createdAt]; an edit of a
    thread keeps its [author], [category], [isPinned], [isLocked],
    [isActive], [replyCount], [lastReply] and [createdAt]; the edit history of
    a post only grows at its end and the views of a thread only go up. *)
Inductive Step (s : Store) : Store → Prop :=
  | step_none : Step s s
  | step_post_edit (id : N) (p p' : Post.t) :
      posts s !! id = Some p →
      Post.thread p' = Post.thread p → Post.author p' = Post.author p →
      Post.parentPost p' = Post.parentPost p →
      Post.isActive p' = Post.isActive p → Post.createdAt p' = Post.createdAt p →
      Post.editHistory p `prefix_of` Post.editHistory p' →
      Step s (set_posts <[id := p']> s)
  | step_thread_edit (id : N) (x x' : Thread.t) :
      threads s !! id = Some x →
      Thread.author x' = Thread.author x → Thread.category x' = Thread.category x →
      Thread.isPinned x' = Thread.isPinned x → Thread.isLocked x' = Thread.isLocked x →
      Thread.isActive x' = Thread.isActive x →
      Thread.replyCount x' = Thread.replyCount x →
      Thread.lastReply x' = Thread.lastReply x →
      Thread.createdAt x' = Thread.createdAt x →
      Thread.views x ≤ Thread.views x' →
      Step s (set_threads <[id := x']> s)
  | step_post_created (id : N) (p : Post.t) (x : Thread.t) (now : Z) :
      posts s !! id = None →
      threads s !! Post.thread p = Some x →
      Thread.isActive x = true → Thread.isLocked x = false →
      Post.isActive p = true → Post.likes p = [] →
      Step s (mkStore
        (alter (User.incPostCount 1) (Post.author p) (users s))
        (alter (Category.incPostCount 1) (Thread.category x) (categories s))
        (alter (λ t, Thread.set_lastReply
                       {| lastReply_author := Some (Post.author p);
                          lastReply_createdAt := now |}
                       (Thread.incReplyCount 1 t)) (Post.thread p) (threads s))
        (<[id := p]> (posts s)))
  | step_post_deleted (id : N) (p : Post.t) (x : Thread.t) :
      posts s !! id = Some p → Post.isActive p = true →
      threads s !! Post.thread p = Some x →
      Step s (mkStore
        (alter (User.incPostCount (-1)) (Post.author p) (users s))
        (alter (Category.incPostCount (-1)) (Thread.category x) (categories s))
        (alter (Thread.incReplyCount (-1)) (Post.thread p) (threads s))
        (<[id := Post.set_isActive false p]> (posts s)))
  | step_post_deleted_detached (id : N) (p : Post.t) :
      posts s !! id = Some p → Post.isActive p = true →
      threads s !! Post.thread p = None →
      Step s (set_posts <[id := Post.set_isActive false p]> s)
  | step_thread_created (id : N) (x : Thread.t) (c : Category.t) :
      threads s !! id = None →
      categories s !! Thread.category x = Some c → Category.isActive c = true →
      Thread.isActive x = true → Thread.isPinned x = false →
      Thread.isLocked x = false → Thread.replyCount x = 0 →
      Thread.views x = 0 → Thread.likes x = [] →
      Step s (mkStore
        (alter (User.incPostCount 1) (Thread.author x) (users s))
        (alter (Category.incThreadCount 1) (Thread.category x) (categories s))
        (<[id := x]> (threads s))
        (posts s))
  | step_thread_deleted (id : N) (x : Thread.t) :
      threads s !! id = Some x → Thread.isActive x = true →
      Step s (mkStore
        (users s)
        (alter (Category.incThreadCount (-1)) (Thread.category x) (categories s))
        (<[id := Thread.set_isActive false x]> (threads s))
        (posts s)).

(** The store after a sequence of requests, served one after the other. *)
Definition replay (textSearch : list N → Thread.t → bool) (reqs : list Request)
    (s : Store) : Store :=
  foldl (λ s req, (handle textSearch req s).1) s reqs.

(** ** What the counters count *)

Definition indicator (P : Prop) `{!Decision P} : Z := if decide P then 1 else 0.

(** The active posts of a thread. *)
Definition activePostsIn (s : Store) (thread : N) : Z :=
  countWhere (λ p, Post.thread p = thread ∧ Post.isActive p) (posts s).

(** The active threads of a category. *)
Definition activeThreadsIn (s : Store) (category : N) : Z :=
  countWhere (λ x, Thread.category x = category ∧ Thread.isActive x) (threads s).

(** The active posts whose thread, active or not, is of a category. *)
Definition activePostsUnder (s : Store) (category : N) : Z :=
  countWhere (λ p, Thread.category <$> threads s !! Post.thread p = Some category
                   ∧ Post.isActive p) (posts s).

(** The threads a user has opened, active or not. *)
Definition threadsBy (s : Store) (user : N) : Z :=
  countWhere (λ x, Thread.author x = user) (threads s).

(** The active posts of a user. *)
Definition activePostsBy (s : Store) (user : N) : Z :=
  countWhere (λ p, Post.author p = user ∧ Post.isActive p) (posts s).

(** Every post belongs to a thread of the store. *)
Definition postsAttached (s : Store) : Prop :=
  ∀ id p, posts s !! id = Some p → is_Some (threads s !! Post.thread p).

Definition replyCountsExact (s : Store) : Prop :=
  ∀ id x, threads s !! id = Some x → Thread.replyCount x = activePostsIn s id.

Definition threadCountsExact (s : Store) : Prop :=
  ∀ id c, categories s !! id = Some c → Category.threadCount c = activeThreadsIn s id.

Definition categoryPostCountsExact (s : Store) : Prop :=
  ∀ id c, categories s !! id = Some c → Category.postCount c = activePostsUnder s id.

Definition userPostCountsExact (s : Store) : Prop :=
  ∀ id u, users s !! id = Some u → User.postCount u = threadsBy s id + activePostsBy s id.

#[global] Instance postsAttached_dec (s : Store) : Decision (postsAttached s).
Proof.
  unshelve eapply (map_Forall_dec (λ _ p, is_Some (threads s !! Post.thread p))).
  all: intros ? ?; simpl; apply _.
Defined.

#[global] Instance replyCountsExact_dec (s : Store) : Decision (replyCountsExact s).
Proof.
  unshelve eapply (map_Forall_dec (λ id x, Thread.replyCount x = activePostsIn s id)).
  all: intros ? ?; simpl; apply _.
Defined.

#[global] Instance threadCountsExact_dec (s : Store) : Decision (threadCountsExact s).
Proof.
  unshelve eapply (map_Forall_dec (λ id c, Category.threadCount c = activeThreadsIn s id)).
  all: intros ? ?; simpl; apply _.
Defined.

#[global] Instance categoryPostCountsExact_dec (s : Store)
  : Decision (categoryPostCountsExact s).
Proof.
  unshelve eapply (map_Forall_dec (λ id c, Category.postCount c = activePostsUnder s id)).
  all: intros ? ?; simpl; apply _.
Defined.

#[global] Instance userPostCountsExact_dec (s : Store) : Decision (userPostCountsExact s).
Proof.
  unshelve eapply (map_Forall_dec (λ id u, User.postCount u = threadsBy s id + activePostsBy s id)).
  all: intros ? ?; simpl; apply _.
Defined.

(** ** How a document may change *)

(** A later state of a thread: its author, category, pin, lock and creation
    time are the same, its views are not fewer, and it is not active again
    once it was soft-deleted. *)
Definition threadSucceeds (x x' : Thread.t) : Prop :=
  Thread.author x' = Thread.author x ∧ Thread.category x' = Thread.category x
  ∧ Thread.isPinned x' = Thread.isPinned x ∧ Thread.isLocked x' = Thread.isLocked x
  ∧ Thread.createdAt x' = Thread.createdAt x
  ∧ Thread.views x ≤ Thread.views x'
  ∧ (Thread.isActive x = false → Thread.isActive x' = false).

(** A later state of a post: its author, thread, parent and creation time
    are the same, its edit history has only grown at the end, and it is not
    active again once it was soft-deleted. *)
Definition postSucceeds (p p' : Post.t) : Prop :=
  Post.author p' = Post.author p ∧ Post.thread p' = Post.thread p
  ∧ Post.parentPost p' = Post.parentPost p ∧ Post.createdAt p' = Post.createdAt p
  ∧ Post.editHistory p `prefix_of` Post.editHistory p'
  ∧ (Post.isActive p = false → Post.isActive p' = false).

(** A later state of a user or of a category differs in its counters only. *)
Definition userSucceeds (u u' : User.t) : Prop :=
  ∃ d, u' = User.incPostCount d u.

Definition categorySucceeds (c c' : Category.t) : Prop :=
  ∃ d e, c' = Category.incThreadCount d (Category.incPostCount e c).

(** Requests for the examples: B's reply is read, liked, edited and
    deleted, and T is deleted by its author. *)
Definition Scenario_session : list Request :=
  [GetThread None Scenario.T;
   LikePost Scenario.A Scenario.P 300;
   UpdatePost Scenario.B Scenario.P (Scenario.text "Welcome!") 310;
   DeletePost Scenario.root Scenario.P;
   DeleteThread Scenario.A Scenario.T].

(** ** The categories router: one category *)

Module CategoryRoutes.

(** The JSON envelope of the two routes, with the category as data. *)
Record Reply := {
  status : N;
  success : bool;
  message : option string;
  data : option (N * Category.t)
}.


(** [{ isActive: false }] *)
Definition deactivated (c : Category.t) : Category.t :=
  Category.mk (Category.name c) (Category.description c) (Category.color c)
              (Category.icon c) false (Category.threadCount c) (Category.postCount c)
              (Category.order c) (Category.createdAt c).

(** DELETE /categories/:id (authenticateToken, requireRole(['admin'])):
    [Category.findByIdAndUpdate(id, { isActive: false }, { new: true })], which
    does not ask for an active category. *)
Definition deleteCategory (id : N) (s : Store) : Store * Reply :=
  match categories s !! id with
  | None =>
    (s, {| status := 404; success := false; message := Some "Category not found";
           data := None |})
  | Some category =>
    (set_categories <[id := deactivated category]> s,
     {| status := 200; success := true;
        message := Some "Category deleted successfully"; data := None |})
  end.

End CategoryRoutes.

(** ** Values for the examples *)

Module Examples.

(** T as A created it, before any reply. *)
Definition thread_T_new : Thread.t :=
  Thread.mk (Scenario.text "Hello") (Scenario.text "First") 1 Scenario.General
            false false true 0 0
            {| lastReply_author := None; lastReply_createdAt := 100 |} [] [] 100.

Definition opening : ThreadRoutes.Body :=
  {| ThreadRoutes.title := Scenario.text "Hello";
     ThreadRoutes.content := Scenario.text "First";
     ThreadRoutes.category_id := Some Scenario.General;
     ThreadRoutes.tags := None |}.

(** The store after A has deleted T. *)
Definition s2_closed : Store :=
  (run (ThreadRoutes.deleteThread Scenario.A Scenario.T) Scenario.s2).1.

Definition thread_T_closed : Thread.t := Thread.set_isActive false Scenario.thread_T.

Definition post_P_deleted : Post.t := Post.set_isActive false Scenario.post_P.

Definition retitle : ThreadRoutes.Changes :=
  {| ThreadRoutes.new_title := Scenario.text "  Hello again ";
     ThreadRoutes.new_content := []; ThreadRoutes.new_tags := None |}.

Definition category_General : Category.t :=
  Category.mk (Scenario.text "General") (Scenario.text "about")
              (Scenario.text "#3B82F6") (Scenario.text "MessageSquare")
              true 0 0 0 0.

End Examples.

(** * Properties *)

Import PostRoutes ThreadRoutes Scenario.

(** ** Running a handler *)

Ltac unfold_handler :=
  unfold run, handle, route, mbind, Handler_bind, mret, Handler_ret, send, throw,
         gets, modify,
         Thread_findOne, Post_findOne, Category_findOne, Post_findOne_in,
         Post_insert, Thread_insert, Post_save, Thread_save,
         Thread_findByIdAndUpdate, User_findByIdAndUpdate,
         Category_findByIdAndUpdate, Post_findById_populated,
         PostRoutes.Post_find, PostRoutes.Post_countDocuments,
         PostRoutes.Post_findOne_populate_thread,
         ThreadRoutes.Thread_findById_populated, ThreadRoutes.Thread_findOneAndUpdate,
         ThreadRoutes.Thread_find, ThreadRoutes.Thread_countDocuments in *.

Ltac run_handler :=
  unfold_handler; simpl in *; simplify_eq/=; repeat (case_match; simplify_eq/=).

Lemma whenActive_Some {A} (f : A → bool) (o : option A) (d : A) :
  whenActive f o = Some d ↔ o = Some d ∧ f d = true.
Proof.
  unfold whenActive. destruct o as [d'|].
  - destruct (f d') eqn:E; split.
    + intros [= <-]. done.
    + intros [[= <-] _]. done.
    + done.
    + intros [[= <-] ?]. congruence.
  - split; [done | by intros [? _]].
Qed.

Lemma canMutate_false (user : Actor) (author : N) :
  bool_decide (author ≠ actor_id user) && bool_decide (actor_role user ≠ RoleAdmin)
  = negb (canMutate user author).
Proof.
  unfold canMutate.
  repeat case_bool_decide; simpl; congruence.
Qed.

Lemma canMutate_gate (user : Actor) (author : N) :
  canMutate user author = false ↔
  bool_decide (author ≠ actor_id user) && bool_decide (actor_role user ≠ RoleAdmin) = true.
Proof. rewrite canMutate_false. by destruct (canMutate user author). Qed.

(** What a DELETE /posts/:id that answers 200 has done. *)
Lemma deletePost_ok (s s' : Store) (user : Actor) (id : N) (r : Response) :
  run (PostRoutes.deletePost user id) s = (s', r) →
  status r = 200%N →
  ∃ post thread,
    posts s !! id = Some post ∧ Post.isActive post = true
    ∧ threads s !! Post.thread post = Some thread
    ∧ canMutate user (Post.author post) = true
    ∧ s' = mkStore (alter (User.incPostCount (-1)) (Post.author post) (users s))
                   (alter (Category.incPostCount (-1)) (Thread.category thread)
                          (categories s))
                   (alter (Thread.incReplyCount (-1)) (Post.thread post) (threads s))
                   (<[id := Post.set_isActive false post]> (posts s)).
Proof.
  unfold PostRoutes.deletePost. intros Hrun Hst.
  unfold_handler. simpl in Hrun.
  destruct (whenActive Post.isActive (posts s !! id)) as [post|] eqn:Hpost;
    simpl in Hrun; [|by simplify_eq].
  apply whenActive_Some in Hpost as [Hpost Hact].
  rewrite canMutate_false in Hrun.
  destruct (canMutate user (Post.author post)) eqn:Hauth; simpl in Hrun;
    [|by simplify_eq].
  destruct (Post_validate (Post.set_isActive false post)); simpl in Hrun;
    [|by simplify_eq].
  destruct (threads s !! Post.thread post) as [thread|] eqn:Hthread;
    simpl in Hrun; [|by simplify_eq].
  simplify_eq. by exists post, thread.
Qed.

(** What a POST /posts that answers 201 has done. *)
Lemma createPost_ok (s s' : Store) (user : Actor) (body : PostRoutes.Body)
    (newId : N) (now : Z) (r : Response) :
  run (PostRoutes.createPost user body newId now) s = (s', r) →
  status r = 201%N →
  ∃ threadId thread,
    PostRoutes.threadId body = Some threadId
    ∧ threads s !! threadId = Some thread
    ∧ Thread.isActive thread = true ∧ Thread.isLocked thread = false
    ∧ posts s !! newId = None
    ∧ s' = mkStore
        (alter (User.incPostCount 1) (actor_id user) (users s))
        (alter (Category.incPostCount 1) (Thread.category thread) (categories s))
        (alter (λ t, Thread.set_lastReply
                       {| lastReply_author := Some (actor_id user);
                          lastReply_createdAt := now |}
                       (Thread.incReplyCount 1 t)) threadId (threads s))
        (<[newId := Post.mk (PostRoutes.content body) (actor_id user) threadId
                            (PostRoutes.parentPostId body) true [] false None [] now]>
           (posts s)).
Proof.
  unfold PostRoutes.createPost. intros Hrun Hst.
  destruct (PostRoutes.threadId body) as [threadId|]; [|by run_handler].
  destruct (bool_decide (PostRoutes.content body = [])); [by run_handler|].
  unfold_handler. simpl in Hrun.
  destruct (whenActive Thread.isActive (threads s !! threadId)) as [thread|] eqn:Hthread;
    simpl in Hrun; [|by simplify_eq].
  apply whenActive_Some in Hthread as [Hthread Hact].
  destruct (Thread.isLocked thread) eqn:Hlock; simpl in Hrun; [by simplify_eq|].
  exists threadId, thread.
  destruct (PostRoutes.parentPostId body) as [parent|]; simpl in Hrun.
  - destruct (whenActive _ (posts s !! parent)); simpl in Hrun; [|by simplify_eq].
    destruct (negb (Post_validate _)); simpl in Hrun; [by simplify_eq|].
    destruct (posts s !! newId) eqn:Hnew; simpl in Hrun; [by simplify_eq|].
    rewrite lookup_insert_eq in Hrun. simpl in Hrun. by simplify_eq.
  - destruct (negb (Post_validate _)); simpl in Hrun; [by simplify_eq|].
    destruct (posts s !! newId) eqn:Hnew; simpl in Hrun; [by simplify_eq|].
    rewrite lookup_insert_eq in Hrun. simpl in Hrun. by simplify_eq.
Qed.

(** What a POST /threads that answers 201 has done. *)
Lemma createThread_ok (s s' : Store) (user : Actor) (body : ThreadRoutes.Body)
    (newId : N) (now : Z) (r : Response) :
  run (ThreadRoutes.createThread user body newId now) s = (s', r) →
  status r = 201%N →
  ∃ category c thread,
    ThreadRoutes.category_id body = Some category
    ∧ categories s !! category = Some c ∧ Category.isActive c = true
    ∧ threads s !! newId = None
    ∧ Thread.author thread = actor_id user ∧ Thread.category thread = category
    ∧ Thread.replyCount thread = 0 ∧ Thread.likes thread = []
    ∧ Thread.isActive thread = true
    ∧ s' = mkStore
        (alter (User.incPostCount 1) (actor_id user) (users s))
        (alter (Category.incThreadCount 1) category (categories s))
        (<[newId := thread]> (threads s))
        (posts s).
Proof.
  unfold ThreadRoutes.createThread. intros Hrun Hst.
  destruct (ThreadRoutes.category_id body) as [category|]; [|by run_handler].
  destruct (_ || _); [by run_handler|].
  unfold_handler. simpl in Hrun.
  destruct (whenActive Category.isActive (categories s !! category)) as [c|] eqn:Hc;
    simpl in Hrun; [|by simplify_eq].
  apply whenActive_Some in Hc as [Hc Hact].
  destruct (negb (Thread_validate _)); simpl in Hrun; [by simplify_eq|].
  destruct (threads s !! newId) eqn:Hnew; simpl in Hrun; [by simplify_eq|].
  simplify_eq. eexists category, c, _. by repeat split.
Qed.

Ltac observe :=
  unfold replyCountOf, lastReplyOf, viewsOf, userPostCountOf, categoryPostCountOf,
         categoryThreadCountOf; simpl.

(** ** Counters *)

(** The scenario of the specification, step by step. *)
Example scenario_counters :
  (categoryThreadCountOf s1 General, userPostCountOf s1 1) = (Some 1, Some 1)
  ∧ (replyCountOf s2 T, categoryPostCountOf s2 General, userPostCountOf s2 2,
     lastReply_author <$> lastReplyOf s2 T) = (Some 1, Some 1, Some 1, Some (Some 2%N))
  ∧ (replyCountOf s3 T, categoryPostCountOf s3 General, userPostCountOf s3 2)
    = (Some 0, Some 0, Some 0).
Proof. by vm_compute. Qed.

(** C1. A DELETE /posts/:id that succeeds deactivates the post and applies
    exactly three counter updates: the reply count of the post's thread, the
    post count of the post's author and the post count of the thread's
    category each go down by one.  Every other reply count, user post count
    and category post count, every thread count and view count, and every
    [lastReply] (that of the post's thread included) keep their values. *)
Theorem deletePost_counters (s s' : Store) (user : Actor) (id : N) (r : Response) :
  run (PostRoutes.deletePost user id) s = (s', r) →
  status r = 200%N →
  ∃ post thread,
    posts s !! id = Some post ∧ Post.isActive post = true
    ∧ threads s !! Post.thread post = Some thread
    ∧ Post.isActive <$> posts s' !! id = Some false
    ∧ (∀ t, replyCountOf s' t =
            if decide (t = Post.thread post) then Some (Thread.replyCount thread - 1)
            else replyCountOf s t)
    ∧ (∀ u, userPostCountOf s' u =
            if decide (u = Post.author post) then (λ n, n - 1) <$> userPostCountOf s u
            else userPostCountOf s u)
    ∧ (∀ c, categoryPostCountOf s' c =
            if decide (c = Thread.category thread)
            then (λ n, n - 1) <$> categoryPostCountOf s c
            else categoryPostCountOf s c)
    ∧ (∀ c, categoryThreadCountOf s' c = categoryThreadCountOf s c)
    ∧ (∀ t, viewsOf s' t = viewsOf s t)
    ∧ (∀ t, lastReplyOf s' t = lastReplyOf s t).
Proof.
  intros Hrun Hst.
  destruct (deletePost_ok _ _ _ _ _ Hrun Hst) as (post & thread & Hp & Hact & Ht & _ & ->).
  exists post, thread. observe.
  split_and!; try done.
  - by rewrite lookup_insert_eq.
  - intros t. rewrite lookup_alter. case_decide; case_decide; try congruence.
    subst. by rewrite Ht.
  - intros u. rewrite lookup_alter. case_decide; case_decide; try congruence.
    subst. by destruct (users s !! Post.author post).
  - intros c. rewrite lookup_alter. case_decide; case_decide; try congruence.
    subst. by destruct (categories s !! Thread.category thread).
  - intros c. rewrite lookup_alter. case_decide; [|done].
    subst. by destruct (categories s !! Thread.category thread).
  - intros t. rewrite lookup_alter. case_decide; [|done].
    subst. by rewrite Ht.
  - intros t. rewrite lookup_alter. case_decide; [|done].
    subst. by rewrite Ht.
Qed.

(** B soft-deletes P: the three counters of the scenario return to 0 and
    [lastReply] still names B. *)
Lemma deletePost_counters_witness :
  replyCountOf s3 T = Some 0
  ∧ userPostCountOf s3 2 = Some 0
  ∧ categoryPostCountOf s3 General = Some 0
  ∧ categoryPostCountOf s3 Other = categoryPostCountOf s2 Other
  ∧ lastReplyOf s3 T = lastReplyOf s2 T.
Proof.
  destruct (deletePost_counters s2 s3 B P (run (deletePost B P) s2).2)
    as (post & thread & Hpost & _ & Hthread & _ & Hreply & Huser & Hcat & _ & _ & Hlast).
  - by vm_compute.
  - by vm_compute.
  - vm_compute in Hpost. injection Hpost as <-.
    vm_compute in Hthread. injection Hthread as <-.
    rewrite (Hreply T), (Huser 2%N), (Hcat General), (Hcat Other), (Hlast T).
    by vm_compute.
Defined.

(** C3. A POST /posts that succeeds on a thread, followed by a DELETE of
    the post it created that succeeds, leaves the thread's reply count at
    the value it had before the two requests (one more in between). *)
Theorem create_then_delete_replyCount (s s1 s2 : Store) (user deleter : Actor)
    (body : PostRoutes.Body) (newId : N) (now : Z) (r1 r2 : Response) (thread : N) :
  PostRoutes.threadId body = Some thread →
  run (PostRoutes.createPost user body newId now) s = (s1, r1) →
  status r1 = 201%N →
  run (PostRoutes.deletePost deleter newId) s1 = (s2, r2) →
  status r2 = 200%N →
  is_Some (replyCountOf s thread)
  ∧ replyCountOf s1 thread = (λ n, n + 1) <$> replyCountOf s thread
  ∧ replyCountOf s2 thread = replyCountOf s thread.
Proof.
  intros Hbody Hrun1 Hst1 Hrun2 Hst2.
  destruct (createPost_ok _ _ _ _ _ _ _ Hrun1 Hst1)
    as (thread' & x & Hbody' & Hx & _ & _ & Hnew & ->).
  assert (thread' = thread) as -> by congruence.
  destruct (deletePost_ok _ _ _ _ _ Hrun2 Hst2) as (post & x' & Hp & _ & Hx' & _ & ->).
  simpl in *. rewrite lookup_insert_eq in Hp. injection Hp as <-. simpl in *.
  observe. rewrite !lookup_alter_eq, Hx. simpl.
  split_and!; [by eexists | done |]. f_equal. lia.
Qed.

(** B replies to T and deletes the reply. *)
Lemma create_then_delete_replyCount_witness :
  is_Some (replyCountOf s1 T)
  ∧ replyCountOf s2 T = (λ n, n + 1) <$> replyCountOf s1 T
  ∧ replyCountOf s3 T = replyCountOf s1 T.
Proof.
  apply (create_then_delete_replyCount s1 s2 s3 B B reply P 200
           (run (createPost B reply P 200) s1).2 (run (deletePost B P) s2).2);
    by vm_compute.
Defined.

(** C5. A POST /threads that succeeds in category [category] raises that
    category's thread count by one and the creating user's post count by
    one; the thread count of every other category, the post count of every
    category and the post count of every other user keep their values. *)
Theorem createThread_counters (s s' : Store) (user : Actor) (body : ThreadRoutes.Body)
    (newId : N) (now : Z) (r : Response) (category : N) :
  run (ThreadRoutes.createThread user body newId now) s = (s', r) →
  status r = 201%N →
  ThreadRoutes.category_id body = Some category →
  is_Some (categoryThreadCountOf s category)
  ∧ (∀ c, categoryThreadCountOf s' c =
          if decide (c = category) then (λ n, n + 1) <$> categoryThreadCountOf s c
          else categoryThreadCountOf s c)
  ∧ (∀ c, categoryPostCountOf s' c = categoryPostCountOf s c)
  ∧ (∀ u, userPostCountOf s' u =
          if decide (u = actor_id user) then (λ n, n + 1) <$> userPostCountOf s u
          else userPostCountOf s u).
Proof.
  intros Hrun Hst Hbody.
  destruct (createThread_ok _ _ _ _ _ _ _ Hrun Hst)
    as (category' & c & x & Hbody' & Hc & _ & _ & _ & _ & _ & _ & _ & ->).
  assert (category' = category) as -> by congruence.
  observe. split_and!.
  - rewrite Hc. by eexists.
  - intros c'. rewrite lookup_alter. case_decide; case_decide; try congruence.
    subst. by rewrite Hc.
  - intros c'. rewrite lookup_alter. case_decide; [|done].
    subst. by rewrite Hc.
  - intros u. rewrite lookup_alter. case_decide; case_decide; try congruence.
    subst. by destruct (users s !! actor_id user).
Qed.

(** A opens T in General. *)
Lemma createThread_counters_witness :
  categoryThreadCountOf s1 General = Some 1
  ∧ categoryThreadCountOf s1 Other = Some 0
  ∧ categoryPostCountOf s1 General = Some 0
  ∧ userPostCountOf s1 1 = Some 1
  ∧ userPostCountOf s1 2 = Some 0.
Proof.
  destruct (createThread_counters s0 s1 A
              {| title := text "Hello"; content := text "First";
                 category_id := Some General; tags := None |}
              T 100
              (run (createThread A
                      {| title := text "Hello"; content := text "First";
                         category_id := Some General; tags := None |} T 100) s0).2
              General)
    as (_ & Hthreads & Hposts & Husers); [by vm_compute..|].
  rewrite (Hthreads General), (Hthreads Other), (Hposts General), (Husers 1%N),
    (Husers 2%N).
  by vm_compute.
Defined.

(** C10. When a DELETE /posts/:id succeeds for a requester who is not the
    post's author, the requester is an admin, the post count of the post's
    author goes down by one and the requester's own post count keeps its
    value. *)
Theorem deletePost_charges_author (s s' : Store) (user : Actor) (id : N) (r : Response)
    (post : Post.t) :
  run (PostRoutes.deletePost user id) s = (s', r) →
  status r = 200%N →
  posts s !! id = Some post →
  actor_id user ≠ Post.author post →
  actor_role user = RoleAdmin
  ∧ userPostCountOf s' (Post.author post)
    = (λ n, n - 1) <$> userPostCountOf s (Post.author post)
  ∧ userPostCountOf s' (actor_id user) = userPostCountOf s (actor_id user).
Proof.
  intros Hrun Hst Hpost Hne.
  destruct (deletePost_ok _ _ _ _ _ Hrun Hst) as (post' & x & Hp & _ & _ & Hcan & ->).
  assert (post' = post) as -> by congruence.
  unfold canMutate in Hcan. rewrite bool_decide_eq_false_2 in Hcan by done.
  simpl in Hcan. apply bool_decide_eq_true_1 in Hcan.
  observe. rewrite lookup_alter_eq, lookup_alter_ne by done.
  split_and!; try done. by destruct (users s !! Post.author post).
Qed.

(** The admin soft-deletes B's post. *)
Lemma deletePost_charges_author_witness :
  actor_role root = RoleAdmin
  ∧ userPostCountOf s3_root 2 = (λ n, n - 1) <$> userPostCountOf s2 2
  ∧ userPostCountOf s3_root 3 = userPostCountOf s2 3.
Proof.
  apply (deletePost_charges_author s2 s3_root root P (run (deletePost root P) s2).2 post_P);
    by vm_compute.
Defined.

(** ** Authorization *)

(** C2, as stated, fails: PUT /posts/:id answers 403 to an admin who is not
    the author of the post. *)
Lemma updatePost_refuses_admin :
  ¬ (∀ (s : Store) (user : Actor) (id : N) (content : list N) (now : Z) (post : Post.t),
       posts s !! id = Some post → Post.isActive post = true → content ≠ [] →
       canMutate user (Post.author post) = true →
       status (run (updatePost user id content now) s).2 ≠ 403%N).
Proof.
  intros H.
  apply (H Scenario.s2 Scenario.root Scenario.P (Scenario.text "Edited") 300
           Scenario.post_P); by vm_compute.
Qed.

(** C2, amended.  On an active thread or post, PUT /threads/:id,
    DELETE /threads/:id and DELETE /posts/:id answer 403 exactly when the
    actor is neither the author nor an admin; PUT /posts/:id (with content)
    answers 403 exactly when the actor is not the author, admin or not.  A
    request answered 403 leaves the store as it was. *)
Theorem mutation_gate :
  (∀ (s : Store) (user : Actor) (id : N) (body : Changes) (thread : Thread.t),
     threads s !! id = Some thread → Thread.isActive thread = true →
     (status (run (updateThread user id body) s).2 = 403%N
      ↔ canMutate user (Thread.author thread) = false)
     ∧ (status (run (updateThread user id body) s).2 = 403%N
        → (run (updateThread user id body) s).1 = s))
  ∧ (∀ (s : Store) (user : Actor) (id : N) (thread : Thread.t),
     threads s !! id = Some thread → Thread.isActive thread = true →
     (status (run (deleteThread user id) s).2 = 403%N
      ↔ canMutate user (Thread.author thread) = false)
     ∧ (status (run (deleteThread user id) s).2 = 403%N
        → (run (deleteThread user id) s).1 = s))
  ∧ (∀ (s : Store) (user : Actor) (id : N) (post : Post.t),
     posts s !! id = Some post → Post.isActive post = true →
     (status (run (deletePost user id) s).2 = 403%N
      ↔ canMutate user (Post.author post) = false)
     ∧ (status (run (deletePost user id) s).2 = 403%N
        → (run (deletePost user id) s).1 = s))
  ∧ (∀ (s : Store) (user : Actor) (id : N) (content : list N) (now : Z) (post : Post.t),
     posts s !! id = Some post → Post.isActive post = true → content ≠ [] →
     (status (run (updatePost user id content now) s).2 = 403%N
      ↔ actor_id user ≠ Post.author post)
     ∧ (status (run (updatePost user id content now) s).2 = 403%N
        → (run (updatePost user id content now) s).1 = s)).
Proof.
  split_and!.
  - intros s user id body thread Hth Hact. rewrite canMutate_gate.
    unfold updateThread. unfold_handler. simpl. rewrite Hth. simpl. rewrite Hact. simpl.
    destruct (_ && _); simpl; [done|].
    destruct (Thread_validate _); simpl; (split; [split|]); by intros [=].
  - intros s user id thread Hth Hact. rewrite canMutate_gate.
    unfold deleteThread. unfold_handler. simpl. rewrite Hth. simpl. rewrite Hact. simpl.
    destruct (_ && _); simpl; [done|].
    destruct (Thread_validate _); simpl; (split; [split|]); by intros [=].
  - intros s user id post Hp Hact. rewrite canMutate_gate.
    unfold deletePost. unfold_handler. simpl. rewrite Hp. simpl. rewrite Hact. simpl.
    destruct (_ && _); simpl; [done|].
    destruct (Post_validate _); simpl; [|(split; [split|]); by intros [=]].
    destruct (threads s !! Post.thread post); simpl; (split; [split|]); by intros [=].
  - intros s user id content now post Hp Hact Hc.
    unfold updatePost. rewrite bool_decide_eq_false_2 by done.
    unfold_handler. simpl. rewrite Hp. simpl. rewrite Hact. simpl.
    case_bool_decide as Hne; simpl.
    + split; [split|]; [congruence|done..].
    + destruct (Post_validate _); simpl; (split; [split|]); try by intros [=].
      all: intros Hne'; destruct Hne; congruence.
Qed.

(** A, who is neither the author of P nor an admin, may not delete it; the
    admin may not edit it. *)
Lemma mutation_gate_witness :
  status (run (deletePost A P) s2).2 = 403%N
  ∧ (run (deletePost A P) s2).1 = s2
  ∧ status (run (updatePost root P (text "Edited") 300) s2).2 = 403%N.
Proof.
  destruct mutation_gate as (_ & _ & Hdelete & Hedit).
  destruct (Hdelete s2 A P post_P) as [Hgate Hsame]; [by vm_compute..|].
  destruct (Hedit s2 root P (text "Edited") 300 post_P) as [Hauthor _];
    [by vm_compute..|].
  assert (status (run (deletePost A P) s2).2 = 403%N) as H403
    by (apply Hgate; by vm_compute).
  split_and!; [done | by apply Hsame | apply Hauthor; by vm_compute].
Defined.

(** C6, as stated, fails: POST /posts with an empty content on a locked
    thread is answered 400, not 403. *)
Lemma locked_thread_answer_400 :
  ¬ (∀ (s : Store) (user : Actor) (body : PostRoutes.Body) (newId : N) (now : Z)
       (id : N) (thread : Thread.t),
       threadId body = Some id → threads s !! id = Some thread →
       Thread.isLocked thread = true →
       status (run (createPost user body newId now) s).2 = 403%N).
Proof.
  intros H.
  specialize (H Scenario.s1_locked Scenario.B
                {| PostRoutes.content := []; threadId := Some Scenario.T;
                   parentPostId := None |}
                31%N 200 Scenario.T Scenario.thread_T_locked).
  vm_compute in H. by specialize (H eq_refl eq_refl eq_refl).
Qed.

(** C6, amended.  POST /posts on a thread whose [isLocked] flag is set is
    always refused and leaves the store as it was: no post is created and no
    counter or [lastReply] changes.  The answer is 403 when the content is
    not empty and the thread is active; it is 400 for an empty content and
    404 for a soft-deleted thread. *)
Theorem createPost_locked (s : Store) (user : Actor) (body : PostRoutes.Body)
    (newId : N) (now : Z) (id : N) (thread : Thread.t) :
  threadId body = Some id →
  threads s !! id = Some thread →
  Thread.isLocked thread = true →
  (run (createPost user body newId now) s).1 = s
  ∧ success (run (createPost user body newId now) s).2 = false
  ∧ status (run (createPost user body newId now) s).2 =
      (if bool_decide (PostRoutes.content body = []) then 400
       else if Thread.isActive thread then 403 else 404)%N.
Proof.
  intros Hbody Hth Hlock. unfold createPost. rewrite Hbody.
  case_bool_decide; [done|].
  unfold_handler. simpl. rewrite Hth. simpl.
  destruct (Thread.isActive thread); simpl; [|done].
  by rewrite Hlock.
Qed.

(** B replies to the locked thread. *)
Lemma createPost_locked_witness :
  (run (createPost B reply 31 200) s1_locked).1 = s1_locked
  ∧ success (run (createPost B reply 31 200) s1_locked).2 = false
  ∧ status (run (createPost B reply 31 200) s1_locked).2 = 403%N.
Proof.
  apply (createPost_locked s1_locked B reply 31 200 T thread_T_locked); by vm_compute.
Defined.

(** ** The like toggle on the array *)

Lemma existingLike_None (uid : N) (likes : list Like) :
  existingLike uid likes = None ↔ uid ∉ likers likes.
Proof.
  unfold existingLike, likers. induction likes as [|like likes IH]; simpl.
  - split; [intros _; apply not_elem_of_nil | done].
  - rewrite not_elem_of_cons. case_bool_decide as Heq.
    + split; [done | intros [? _]; congruence].
    + rewrite IH. split; [intros ?; split; [congruence | done] | by intros [_ ?]].
Qed.

Lemma likers_filter (uid : N) (likes : list Like) :
  likers (filter (λ like, like_user like ≠ uid) likes) = filter (λ u, u ≠ uid) (likers likes).
Proof.
  unfold likers. induction likes as [|like likes IH]; [done|].
  rewrite fmap_cons, !filter_cons. case_decide; rewrite <- IH; done.
Qed.

Lemma likers_push (uid : N) (now : Z) (likes : list Like) :
  likers (likes ++ [{| like_user := uid; like_createdAt := now |}]) = likers likes ++ [uid].
Proof. unfold likers. by rewrite fmap_app. Qed.

Lemma filter_absent (uid : N) (ids : list N) :
  uid ∉ ids → filter (λ u, u ≠ uid) ids = ids.
Proof.
  induction ids as [|u ids IH]; [done|].
  rewrite not_elem_of_cons. intros [Hne Hnot].
  rewrite filter_cons, decide_True by done. by rewrite IH.
Qed.

Lemma filter_present_length (uid : N) (ids : list N) :
  NoDup ids → uid ∈ ids → S (length (filter (λ u, u ≠ uid) ids)) = length ids.
Proof.
  induction 1 as [|u ids Hnot Hnd IH]; [by intros ?%elem_of_nil|].
  rewrite filter_cons. destruct (decide (u = uid)) as [->|Hne].
  - intros _. rewrite decide_False by (intros ?; done).
    by rewrite filter_absent.
  - rewrite elem_of_cons. intros [?|Hin]; [congruence|].
    rewrite decide_True by done. simpl. by rewrite IH.
Qed.

(** The user ids after one toggle. *)
Lemma likers_toggleLike (uid : N) (now : Z) (likes : list Like) :
  likers (toggleLike uid now likes) =
    if decide (uid ∈ likers likes) then filter (λ u, u ≠ uid) (likers likes)
    else likers likes ++ [uid].
Proof.
  unfold toggleLike. destruct (existingLike uid likes) eqn:E.
  - rewrite decide_True, likers_filter; [done|].
    destruct (decide (uid ∈ likers likes)); [done|].
    apply existingLike_None in n. congruence.
  - apply existingLike_None in E. by rewrite decide_False, likers_push.
Qed.

Lemma toggleLike_NoDup (uid : N) (now : Z) (likes : list Like) :
  NoDup (likers likes) → NoDup (likers (toggleLike uid now likes)).
Proof.
  intros Hnd. rewrite likers_toggleLike. case_decide.
  - by apply NoDup_filter.
  - apply NoDup_app. split_and!; [done | | apply NoDup_singleton].
    intros u Hu ->%list_elem_of_singleton. done.
Qed.

Lemma toggleLike_twice_elem_of (uid : N) (now1 now2 : Z) (likes : list Like) (u : N) :
  u ∈ likers (toggleLike uid now2 (toggleLike uid now1 likes)) ↔ u ∈ likers likes.
Proof.
  rewrite !likers_toggleLike. destruct (decide (uid ∈ likers likes)) as [Hin|Hnot].
  - rewrite decide_False by (rewrite list_elem_of_filter; by intros [? _]).
    rewrite elem_of_app, list_elem_of_filter, list_elem_of_singleton.
    destruct (decide (u = uid)) as [->|Hne].
    + split; [done | by right].
    + split; [by intros [[_ ?]|?] | by left].
  - rewrite decide_True by (rewrite elem_of_app, list_elem_of_singleton; by right).
    rewrite filter_app, filter_absent by done.
    rewrite filter_cons, decide_False by (intros ?; done).
    by rewrite filter_nil, app_nil_r.
Qed.

Lemma toggleLike_twice_length (uid : N) (now1 now2 : Z) (likes : list Like) :
  NoDup (likers likes) →
  length (likers (toggleLike uid now2 (toggleLike uid now1 likes))) = length (likers likes).
Proof.
  intros Hnd. rewrite !likers_toggleLike.
  destruct (decide (uid ∈ likers likes)) as [Hin|Hnot].
  - rewrite decide_False by (rewrite list_elem_of_filter; by intros [? _]).
    rewrite length_app. simpl. rewrite Nat.add_1_r. by apply filter_present_length.
  - rewrite decide_True by (rewrite elem_of_app, list_elem_of_singleton; by right).
    rewrite filter_app, filter_absent by done.
    rewrite filter_cons, decide_False by (intros ?; done).
    by rewrite filter_nil, app_nil_r.
Qed.

(** ** The like toggle on the store *)

Lemma likePost_store (s : Store) (user : Actor) (id : N) (now : Z) :
  (run (likePost user id now) s).1 =
    match whenActive Post.isActive (posts s !! id) with
    | Some post =>
      if Post_validate post
      then set_posts <[id := Post.set_likes
                               (toggleLike (actor_id user) now (Post.likes post)) post]> s
      else s
    | None => s
    end.
Proof.
  unfold likePost. unfold_handler. simpl.
  destruct (whenActive Post.isActive (posts s !! id)) as [post|]; simpl; [|done].
  change (Post_validate (Post.set_likes _ post)) with (Post_validate post).
  by destruct (Post_validate post).
Qed.

Lemma likeThread_store (s : Store) (user : Actor) (id : N) (now : Z) :
  (run (likeThread user id now) s).1 =
    match whenActive Thread.isActive (threads s !! id) with
    | Some thread =>
      if Thread_validate thread
      then set_threads <[id := Thread.set_likes
                                 (toggleLike (actor_id user) now (Thread.likes thread))
                                 thread]> s
      else s
    | None => s
    end.
Proof.
  unfold likeThread. unfold_handler. simpl.
  destruct (whenActive Thread.isActive (threads s !! id)) as [thread|]; simpl; [|done].
  change (Thread_validate (Thread.set_likes _ thread)) with (Thread_validate thread).
  by destruct (Thread_validate thread).
Qed.

(** Two POST /posts/:id/like in a row by one user either both toggle the
    post's array or both leave it alone. *)
Lemma likePost_twice_likers (s : Store) (user : Actor) (id : N) (now1 now2 : Z) :
  let s2 := (run (likePost user id now2) (run (likePost user id now1) s).1).1 in
  postLikers s2 id = postLikers s id
  ∨ ∃ post, posts s !! id = Some post
      ∧ postLikers s2 id =
          likers (toggleLike (actor_id user) now2
                    (toggleLike (actor_id user) now1 (Post.likes post))).
Proof.
  simpl. rewrite (likePost_store s).
  destruct (whenActive Post.isActive (posts s !! id)) as [post|] eqn:Hpost.
  2: { rewrite likePost_store, Hpost. by left. }
  apply whenActive_Some in Hpost as [Hpost Hact].
  destruct (Post_validate post) eqn:Hvalid.
  2: { rewrite likePost_store, Hpost. simpl. rewrite Hact, Hvalid. by left. }
  right. exists post. split; [done|].
  rewrite likePost_store. simpl. rewrite lookup_insert_eq. simpl. rewrite Hact.
  change (Post_validate (Post.set_likes _ post)) with (Post_validate post).
  rewrite Hvalid. unfold postLikers. simpl. by rewrite lookup_insert_eq.
Qed.

Lemma likeThread_twice_likers (s : Store) (user : Actor) (id : N) (now1 now2 : Z) :
  let s2 := (run (likeThread user id now2) (run (likeThread user id now1) s).1).1 in
  threadLikers s2 id = threadLikers s id
  ∨ ∃ thread, threads s !! id = Some thread
      ∧ threadLikers s2 id =
          likers (toggleLike (actor_id user) now2
                    (toggleLike (actor_id user) now1 (Thread.likes thread))).
Proof.
  simpl. rewrite (likeThread_store s).
  destruct (whenActive Thread.isActive (threads s !! id)) as [thread|] eqn:Hthread.
  2: { rewrite likeThread_store, Hthread. by left. }
  apply whenActive_Some in Hthread as [Hthread Hact].
  destruct (Thread_validate thread) eqn:Hvalid.
  2: { rewrite likeThread_store, Hthread. simpl. rewrite Hact, Hvalid. by left. }
  right. exists thread. split; [done|].
  rewrite likeThread_store. simpl. rewrite lookup_insert_eq. simpl. rewrite Hact.
  change (Thread_validate (Thread.set_likes _ thread)) with (Thread_validate thread).
  rewrite Hvalid. unfold threadLikers. simpl. by rewrite lookup_insert_eq.
Qed.

(** ** The invariant of the [likes] arrays *)

Lemma keeps_ret {A} (a : A) (Q : A → Prop) : Q a → keeps (mret a) Q.
Proof. intros Ha s Hs. split; [done|]. by intros ? [= <-]. Qed.

Lemma keeps_send {A} (r : Response) (Q : A → Prop) : keeps (send r) Q.
Proof. intros s Hs. by split. Qed.

Lemma keeps_throw {A} (Q : A → Prop) : keeps throw Q.
Proof. apply keeps_send. Qed.

Lemma keeps_bind {A B} (m : Handler A) (k : A → Handler B) (Q : A → Prop) (R : B → Prop) :
  keeps m Q → (∀ a, Q a → keeps (k a) R) → keeps (m ≫= k) R.
Proof.
  intros Hm Hk s Hs. destruct (Hm s Hs) as [Hs' Ha].
  unfold mbind, Handler_bind. destruct (m s) as [s' [r|a]]; simpl in *; [done|].
  by apply Hk; [apply Ha|].
Qed.

Lemma keeps_gets {A} (f : Store → A) (Q : A → Prop) :
  (∀ s, likesUnique s → Q (f s)) → keeps (gets f) Q.
Proof. intros Hf s Hs. split; [done|]. intros ? [= <-]. by apply Hf. Qed.

Lemma keeps_modify (f : Store → Store) (Q : unit → Prop) :
  (∀ s, likesUnique s → likesUnique (f s)) → Q () → keeps (modify f) Q.
Proof. intros Hf HQ s Hs. split; [by apply Hf|]. by intros [] _. Qed.

Lemma likesUnique_set_users f s : likesUnique s → likesUnique (set_users f s).
Proof. done. Qed.

Lemma likesUnique_set_categories f s : likesUnique s → likesUnique (set_categories f s).
Proof. done. Qed.

Lemma likesUnique_alter_thread (f : Thread.t → Thread.t) (id : N) (s : Store) :
  (∀ x, Thread.likes (f x) = Thread.likes x) →
  likesUnique s → likesUnique (set_threads (alter f id) s).
Proof.
  intros Hf [Hthreads Hposts]. split; [|done]. simpl. intros i x.
  rewrite lookup_alter_Some. intros [(_ & y & Hy & ->)|[_ Hx]]; [|by eauto].
  rewrite Hf. eauto.
Qed.

Lemma likesUnique_insert_thread (x : Thread.t) (id : N) (s : Store) :
  uniqueLikes (Thread.likes x) →
  likesUnique s → likesUnique (set_threads <[id := x]> s).
Proof.
  intros Hx [Hthreads Hposts]. split; [|done]. simpl. intros i y.
  rewrite lookup_insert_Some. intros [[_ <-]|[_ Hy]]; by eauto.
Qed.

Lemma likesUnique_insert_post (p : Post.t) (id : N) (s : Store) :
  uniqueLikes (Post.likes p) →
  likesUnique s → likesUnique (set_posts <[id := p]> s).
Proof.
  intros Hp [Hthreads Hposts]. split; [done|]. simpl. intros i q.
  rewrite lookup_insert_Some. intros [[_ <-]|[_ Hq]]; by eauto.
Qed.

Lemma keeps_Thread_findOne (id : N) :
  keeps (Thread_findOne id) (λ o, ∀ x, o = Some x → uniqueLikes (Thread.likes x)).
Proof.
  apply keeps_gets. intros s [Hthreads _] x [Hx _]%whenActive_Some. by eapply Hthreads.
Qed.

Lemma keeps_Post_findOne (id : N) :
  keeps (Post_findOne id) (λ o, ∀ p, o = Some p → uniqueLikes (Post.likes p)).
Proof.
  apply keeps_gets. intros s [_ Hposts] x [Hx _]%whenActive_Some. by eapply Hposts.
Qed.

Lemma keeps_Post_findOne_populate_thread (id : N) :
  keeps (Post_findOne_populate_thread id)
        (λ o, ∀ p x, o = Some (p, x) → uniqueLikes (Post.likes p)).
Proof.
  apply keeps_gets. intros s [_ Hposts] p x.
  destruct (whenActive Post.isActive (posts s !! id)) as [q|] eqn:Hq; [|done].
  apply whenActive_Some in Hq as [Hq _]. intros [= <- _]. by eapply Hposts.
Qed.

Lemma keeps_read {A} (f : Store → A) : keeps (gets f) (λ _, True).
Proof. by apply keeps_gets. Qed.

Lemma keeps_Post_insert (id : N) (p : Post.t) :
  uniqueLikes (Post.likes p) → keeps (Post_insert id p) (λ _, True).
Proof.
  intros Hp s Hs. unfold Post_insert.
  destruct (negb (Post_validate p)); [by apply keeps_throw|].
  destruct (posts s !! id); [by apply keeps_throw|].
  split; [|done]. by apply likesUnique_insert_post.
Qed.

Lemma keeps_Thread_insert (id : N) (x : Thread.t) :
  uniqueLikes (Thread.likes x) → keeps (Thread_insert id x) (λ _, True).
Proof.
  intros Hx s Hs. unfold Thread_insert.
  destruct (negb (Thread_validate x)); [by apply keeps_throw|].
  destruct (threads s !! id); [by apply keeps_throw|].
  split; [|done]. by apply likesUnique_insert_thread.
Qed.

Lemma keeps_Post_save (id : N) (p : Post.t) :
  uniqueLikes (Post.likes p) → keeps (Post_save id p) (λ _, True).
Proof.
  intros Hp. unfold Post_save. destruct (Post_validate p); [|apply keeps_throw].
  apply keeps_modify; [|done]. intros s. by apply likesUnique_insert_post.
Qed.

Lemma keeps_Thread_save (id : N) (x : Thread.t) :
  uniqueLikes (Thread.likes x) → keeps (Thread_save id x) (λ _, True).
Proof.
  intros Hx. unfold Thread_save. destruct (Thread_validate x); [|apply keeps_throw].
  apply keeps_modify; [|done]. intros s. by apply likesUnique_insert_thread.
Qed.

Lemma keeps_Thread_findByIdAndUpdate (id : N) (f : Thread.t → Thread.t) :
  (∀ x, Thread.likes (f x) = Thread.likes x) →
  keeps (Thread_findByIdAndUpdate id f) (λ _, True).
Proof.
  intros Hf. apply keeps_modify; [|done]. intros s. by apply likesUnique_alter_thread.
Qed.

Lemma keeps_User_findByIdAndUpdate (id : N) (f : User.t → User.t) :
  keeps (User_findByIdAndUpdate id f) (λ _, True).
Proof. by apply keeps_modify. Qed.

Lemma keeps_Category_findByIdAndUpdate (id : N) (f : Category.t → Category.t) :
  keeps (Category_findByIdAndUpdate id f) (λ _, True).
Proof. by apply keeps_modify. Qed.

Lemma keeps_Thread_findOneAndUpdate (id : N) (f : Thread.t → Thread.t) :
  (∀ x, Thread.likes (f x) = Thread.likes x) →
  keeps (Thread_findOneAndUpdate id f)
        (λ o, ∀ x, o = Some x → uniqueLikes (Thread.likes x)).
Proof.
  intros Hf s Hs. unfold Thread_findOneAndUpdate.
  destruct (whenActive Thread.isActive (threads s !! id)) as [x|] eqn:Hx; simpl.
  - apply whenActive_Some in Hx as [Hx _].
    assert (uniqueLikes (Thread.likes (f x))) by (rewrite Hf; by eapply (proj1 Hs)).
    split; [by apply likesUnique_insert_thread|]. by intros ? [= <-] ? [= <-].
  - split; [done|]. by intros ? [= <-].
Qed.

Lemma keeps_Post_find (threadId : N) (skip limit : Z) :
  keeps (Post_find threadId skip limit) (λ _, True).
Proof. intros s Hs. unfold Post_find. simpl. by destruct (skipLimit _ _ _). Qed.

Lemma keeps_Thread_find textSearch (q : Query) (skip limit : Z) :
  keeps (Thread_find textSearch q skip limit) (λ _, True).
Proof. intros s Hs. unfold Thread_find. simpl. by destruct (skipLimit _ _ _). Qed.

Lemma toggleLike_unique (uid : N) (now : Z) (likes : list Like) :
  uniqueLikes likes → uniqueLikes (toggleLike uid now likes).
Proof. apply toggleLike_NoDup. Qed.

Lemma uniqueLikes_nil : uniqueLikes [].
Proof. apply NoDup_nil_2. Qed.

Create HintDb keeps.

#[local] Hint Resolve keeps_send keeps_throw keeps_Thread_findOne keeps_Post_findOne
  keeps_Post_findOne_populate_thread keeps_Post_insert keeps_Thread_insert
  keeps_Post_save keeps_Thread_save keeps_Thread_findByIdAndUpdate
  keeps_User_findByIdAndUpdate keeps_Category_findByIdAndUpdate
  keeps_Thread_findOneAndUpdate keeps_Post_find keeps_Thread_find toggleLike_unique
  uniqueLikes_nil : keeps.

(** One step through a handler: a bind, a branch, a store operation, or the
    final [send]. *)
Ltac keeps_step :=
  match goal with
  | |- keeps (mbind _ _) _ => eapply keeps_bind; [|intros ? ?]
  | |- keeps (mret _) _ => by apply keeps_ret
  | |- keeps (match ?x with _ => _ end) _ => destruct x eqn:?
  | |- keeps (Post_save _ _) _ => apply keeps_Post_save
  | |- keeps (Thread_save _ _) _ => apply keeps_Thread_save
  | |- keeps _ _ => solve [eauto with keeps]
  | |- keeps _ _ => apply keeps_read
  | |- uniqueLikes _ => solve [simpl; repeat case_match; simpl; eauto with keeps]
  | |- ∀ x, Thread.likes _ = Thread.likes _ => by intros []
  end.

(** Every route keeps the invariant. *)
Lemma keeps_route (textSearch : list N → Thread.t → bool) (req : Request) :
  keeps (route textSearch req) (λ _, True).
Proof.
  destruct req; simpl;
    unfold getPosts, createPost, likePost, updatePost, deletePost,
           getThreads, getThread, createThread, likeThread, updateThread, deleteThread;
    repeat keeps_step.
Qed.

(** C4. On a store whose [likes] arrays hold at most one entry per user,
    two like requests in a row by the same user on the same post, or on the
    same thread, give the array back its membership (the same user ids) and
    its length. *)
Theorem double_like_restores (s : Store) (user : Actor) (post thread : N) (now1 now2 : Z) :
  likesUnique s →
  let sp := (run (likePost user post now2) (run (likePost user post now1) s).1).1 in
  let st := (run (likeThread user thread now2) (run (likeThread user thread now1) s).1).1 in
  (∀ u, u ∈ postLikers sp post ↔ u ∈ postLikers s post)
  ∧ length (postLikers sp post) = length (postLikers s post)
  ∧ (∀ u, u ∈ threadLikers st thread ↔ u ∈ threadLikers s thread)
  ∧ length (threadLikers st thread) = length (threadLikers s thread).
Proof.
  intros [Hthreads Hposts]. simpl.
  destruct (likePost_twice_likers s user post now1 now2) as [->|(p & Hp & ->)];
  destruct (likeThread_twice_likers s user thread now1 now2) as [->|(x & Hx & ->)];
    unfold postLikers, threadLikers; rewrite ?Hp, ?Hx;
    split_and!; try done;
    try (intros u; apply toggleLike_twice_elem_of);
    apply toggleLike_twice_length; eauto.
Qed.

(** P is liked by B; A likes P twice, and T twice. *)
Lemma double_like_restores_witness :
  let sp := (run (likePost A P 301) (run (likePost A P 300) s2_liked).1).1 in
  let st := (run (likeThread A T 301) (run (likeThread A T 300) s2_liked).1).1 in
  (∀ u, u ∈ postLikers sp P ↔ u ∈ postLikers s2_liked P)
  ∧ length (postLikers sp P) = length (postLikers s2_liked P)
  ∧ (∀ u, u ∈ threadLikers st T ↔ u ∈ threadLikers s2_liked T)
  ∧ length (threadLikers st T) = length (threadLikers s2_liked T).
Proof.
  apply (double_like_restores s2_liked A P T 300 301).
  apply (bool_decide_unpack _). by vm_compute.
Defined.

(** C8. Every request to the posts and threads routers keeps the invariant
    that a [likes] array holds at most one entry per user: if it holds of
    every thread and post before the request, it holds of every thread and
    post after it. *)
Theorem handle_likesUnique (textSearch : list N → Thread.t → bool) (req : Request)
    (s : Store) :
  likesUnique s → likesUnique (handle textSearch req s).1.
Proof.
  intros Hs. destruct (keeps_route textSearch req s Hs) as [Hs' _].
  unfold handle, run.
  by destruct (route textSearch req s) as [s' [r|[]]].
Qed.

(** A likes P, which B has liked. *)
Lemma handle_likesUnique_witness :
  likesUnique (handle noSearch (LikePost A P 300) s2_liked).1.
Proof.
  apply handle_likesUnique. apply (bool_decide_unpack _). by vm_compute.
Defined.

(** ** Pagination *)

Lemma ceilDiv_isCeil (n l : Z) : 0 < l → isCeil n l (ceilDiv n l).
Proof.
  intros Hl. unfold isCeil, ceilDiv.
  pose proof (Z.div_mod (- n) l) as Hdiv.
  pose proof (Z.mod_pos_bound (- n) l Hl) as Hmod.
  nia.
Qed.

Lemma hasNext_spec (p l n : Z) :
  0 < l → (p <? ceilDiv n l) = bool_decide (p * l < n).
Proof.
  intros Hl. destruct (ceilDiv_isCeil n l Hl) as [Hlo Hhi].
  case_bool_decide; [apply Z.ltb_lt | apply Z.ltb_ge]; nia.
Qed.

Lemma parseIntOr_pos (z dflt : Z) : 1 ≤ z → parseIntOr (Some z) dflt = z.
Proof. intros Hz. unfold parseIntOr. by rewrite (proj2 (Z.eqb_neq z 0)) by lia. Qed.

Lemma skipLimit_pos {A} (p l : Z) (docs : list A) :
  1 ≤ p → 1 ≤ l → is_Some (skipLimit ((p - 1) * l) (l * 1) docs).
Proof.
  intros Hp Hl. unfold skipLimit.
  rewrite (proj2 (Z.ltb_ge _ _)) by nia.
  destruct (l * 1 =? 0); by eexists.
Qed.

(** Counting the matching documents of a collection scan. *)
Lemma count_scan {A} (P : A → Prop) `{!∀ x, Decision (P x)} (m : gmap N A) :
  Z.of_nat (length (filter (λ d : N * A, P d.2) (map_to_list m))) = countWhere P m.
Proof.
  unfold countWhere. f_equal. rewrite map_filter_alt, map_size_list_to_map; [done|].
  eapply sublist_NoDup; [apply (NoDup_fst_map_to_list m)|].
  apply fmap_sublist, sublist_filter.
Qed.

Lemma pagination_spec (p l n : Z) :
  1 ≤ p → 1 ≤ l →
  let pg := pagination p l n in
  currentPage pg = p ∧ totalItems pg = n ∧ isCeil n l (totalPages pg)
  ∧ hasNext pg = bool_decide (p * l < n) ∧ hasPrev pg = bool_decide (1 < p).
Proof.
  intros Hp Hl. simpl. split_and!; try done.
  - apply ceilDiv_isCeil. lia.
  - apply hasNext_spec. lia.
  - case_bool_decide; [by apply Z.ltb_lt | by apply Z.ltb_ge; lia].
Qed.

(** C7. A listing asked for page [p ≥ 1] with limit [l ≥ 1] returns a
    pagination object (GET /posts/thread/:threadId when the thread is
    active, GET /threads always) in which, [n] being the number of matching
    documents: [currentPage = p], the total is [n], [totalPages] is the
    ceiling of [n / l], [hasNext] tells whether [p * l < n], and [hasPrev]
    whether [1 < p]. *)
Theorem pagination_contract (textSearch : list N → Thread.t → bool) (s : Store)
    (user : option Actor) (p l : Z) :
  1 ≤ p → 1 ≤ l →
  (∀ threadId thread,
     threads s !! threadId = Some thread → Thread.isActive thread = true →
     let n := countWhere (λ x, Post.thread x = threadId ∧ Post.isActive x) (posts s) in
     ∃ items pg,
       data (run (getPosts user threadId (Some p) (Some l)) s).2
         = Some (PostsPage items pg)
       ∧ currentPage pg = p ∧ totalItems pg = n ∧ isCeil n l (totalPages pg)
       ∧ hasNext pg = bool_decide (p * l < n) ∧ hasPrev pg = bool_decide (1 < p))
  ∧ (∀ q, page q = Some p → limit q = Some l →
     let n := countWhere (λ x, matches textSearch q x) (threads s) in
     ∃ items pg,
       data (run (getThreads textSearch user q) s).2 = Some (ThreadsPage items pg)
       ∧ currentPage pg = p ∧ totalItems pg = n ∧ isCeil n l (totalPages pg)
       ∧ hasNext pg = bool_decide (p * l < n) ∧ hasPrev pg = bool_decide (1 < p)).
Proof.
  intros Hp Hl. split.
  - intros threadId thread Hthread Hact n.
    unfold getPosts. rewrite !parseIntOr_pos by done.
    unfold_handler. simpl. rewrite Hthread. simpl. rewrite Hact. simpl.
    destruct (skipLimit_pos p l
      (sortBy (λ a b : N * Post.t, Post.createdAt a.2 <=? Post.createdAt b.2)
         (filter (λ d : N * Post.t, Post.thread d.2 = threadId ∧ Post.isActive d.2)
            (map_to_list (posts s)))) Hp Hl) as [docs ->].
    simpl. eexists _, _. split; [done|].
    pose proof (count_scan (λ x, Post.thread x = threadId ∧ Post.isActive x) (posts s))
      as Hcount.
    cbv beta in Hcount. rewrite Hcount.
    by apply pagination_spec.
  - intros q Hpage Hlimit n.
    unfold getThreads. rewrite Hpage, Hlimit, !parseIntOr_pos by done.
    unfold_handler. simpl.
    destruct (skipLimit_pos p l
      (sortBy (λ a b : N * Thread.t, notGt (sortOption (sort q) a.2 b.2))
         (filter (λ d : N * Thread.t, matches textSearch q d.2)
            (map_to_list (threads s)))) Hp Hl) as [docs ->].
    simpl. eexists _, _. split; [done|].
    pose proof (count_scan (λ x, matches textSearch q x) (threads s)) as Hcount.
    cbv beta in Hcount. rewrite Hcount.
    by apply pagination_spec.
Qed.

(** The first page of the listing, and of T's posts, after B's reply. *)
Lemma pagination_contract_witness :
  (∃ items pg,
     data (run (getPosts None T (Some 1) (Some 10)) s2).2 = Some (PostsPage items pg)
     ∧ currentPage pg = 1 ∧ totalItems pg = 1 ∧ totalPages pg = 1
     ∧ hasNext pg = false ∧ hasPrev pg = false)
  ∧ (∃ items pg,
     data (run (getThreads noSearch None firstPage) s2).2 = Some (ThreadsPage items pg)
     ∧ currentPage pg = 1 ∧ totalItems pg = 1 ∧ totalPages pg = 1
     ∧ hasNext pg = false ∧ hasPrev pg = false).
Proof.
  destruct (pagination_contract noSearch s2 None 1 10) as [Hposts Hthreads]; [lia..|].
  split.
  - destruct (Hposts T thread_T) as (items & pg & Hdata & Hpage & Htotal & Hceil & Hnext & Hprev);
      [by vm_compute..|].
    assert (countWhere (λ x : Post.t, Post.thread x = T ∧ Post.isActive x) (posts s2) = 1)
      as Hn by (by vm_compute).
    rewrite Hn in Htotal, Hceil, Hnext.
    rewrite bool_decide_eq_false_2 in Hnext, Hprev by lia.
    exists items, pg. unfold isCeil in Hceil. split_and!; try done; lia.
  - destruct (Hthreads firstPage) as (items & pg & Hdata & Hpage & Htotal & Hceil & Hnext & Hprev);
      [done..|].
    assert (countWhere (λ x : Thread.t, matches noSearch firstPage x) (threads s2) = 1)
      as Hn by (by vm_compute).
    rewrite Hn in Htotal, Hceil, Hnext.
    rewrite bool_decide_eq_false_2 in Hnext, Hprev by lia.
    exists items, pg. unfold isCeil in Hceil. split_and!; try done; lia.
Defined.

(** ** The optional actor *)

(** C9. Over the same store, each GET route that takes an optional actor
    leaves the same store with an actor as without one, and the two
    responses are equal once their [hasLiked] fields are blanked; for
    GET /threads they are equal as they are. *)
Theorem optional_actor (textSearch : list N → Thread.t → bool) (s : Store) (user : Actor) :
  (∀ threadId page limit,
     (run (getPosts (Some user) threadId page limit) s).1
       = (run (getPosts None threadId page limit) s).1
     ∧ blankHasLiked (run (getPosts (Some user) threadId page limit) s).2
       = blankHasLiked (run (getPosts None threadId page limit) s).2)
  ∧ (∀ q, run (getThreads textSearch (Some user) q) s
          = run (getThreads textSearch None q) s)
  ∧ (∀ id,
     (run (getThread (Some user) id) s).1 = (run (getThread None id) s).1
     ∧ blankHasLiked (run (getThread (Some user) id) s).2
       = blankHasLiked (run (getThread None id) s).2).
Proof.
  split_and!.
  - intros threadId page limit. unfold getPosts. unfold_handler. simpl.
    destruct (whenActive Thread.isActive (threads s !! threadId)); simpl; [|done].
    destruct (skipLimit _ _ _) as [docs|]; simpl; [|done].
    split; [done|]. unfold blankHasLiked. simpl. do 3 f_equal.
    rewrite !map_map. done.
  - done.
  - intros id. unfold getThread. unfold_handler. simpl.
    by destruct (whenActive Thread.isActive (threads s !! id)).
Qed.

(** The [hasLiked] field does depend on the actor. *)
Example hasLiked_depends_on_actor :
  data (run (getPosts (Some B) T None None) s2_liked).2
  ≠ data (run (getPosts None T None None) s2_liked).2.
Proof. by vm_compute. Qed.

(** * Further properties of the routers *)

(** ** The effect of each route on the store *)

(** POST /posts either leaves the store alone or creates the post and
    updates the three counters. *)
Lemma createPost_effect (s : Store) (user : Actor) (body : PostRoutes.Body)
    (newId : N) (now : Z) :
  let out := run (createPost user body newId now) s in
  (out.1 = s ∧ success out.2 = false ∧ status out.2 ≠ 201%N)
  ∨ (status out.2 = 201%N ∧ success out.2 = true
     ∧ ∃ threadId thread,
         PostRoutes.threadId body = Some threadId
         ∧ PostRoutes.content body ≠ []
         ∧ threads s !! threadId = Some thread
         ∧ Thread.isActive thread = true ∧ Thread.isLocked thread = false
         ∧ posts s !! newId = None
         ∧ out.1 = mkStore
             (alter (User.incPostCount 1) (actor_id user) (users s))
             (alter (Category.incPostCount 1) (Thread.category thread) (categories s))
             (alter (λ t, Thread.set_lastReply
                            {| lastReply_author := Some (actor_id user);
                               lastReply_createdAt := now |}
                            (Thread.incReplyCount 1 t)) threadId (threads s))
             (<[newId := Post.mk (PostRoutes.content body) (actor_id user) threadId
                                 (PostRoutes.parentPostId body) true [] false None []
                                 now]> (posts s))).
Proof.
  simpl. unfold createPost.
  destruct (PostRoutes.threadId body) as [threadId|]; [|by left].
  case_bool_decide as Hcontent; [by left|].
  unfold_handler. simpl.
  destruct (whenActive Thread.isActive (threads s !! threadId)) as [thread|] eqn:Hthread;
    simpl; [|by left].
  apply whenActive_Some in Hthread as [Hthread Hact].
  destruct (Thread.isLocked thread) eqn:Hlock; simpl; [by left|].
  destruct (parentPostId body) as [parent|]; simpl.
  - destruct (whenActive _ (posts s !! parent)); simpl; [|by left].
    destruct (negb (Post_validate _)); simpl; [by left|].
    destruct (posts s !! newId) eqn:Hnew; simpl; [by left|].
    rewrite lookup_insert_eq. simpl. right. split_and!; [done..|].
    by exists threadId, thread.
  - destruct (negb (Post_validate _)); simpl; [by left|].
    destruct (posts s !! newId) eqn:Hnew; simpl; [by left|].
    rewrite lookup_insert_eq. simpl. right. split_and!; [done..|].
    by exists threadId, thread.
Qed.

Lemma updatePost_effect (s : Store) (user : Actor) (id : N) (content : list N) (now : Z) :
  let out := run (updatePost user id content now) s in
  (out.1 = s ∧ success out.2 = false ∧ status out.2 ≠ 200%N)
  ∨ (status out.2 = 200%N ∧ success out.2 = true
     ∧ ∃ post,
         posts s !! id = Some post ∧ Post.isActive post = true
         ∧ Post.author post = actor_id user ∧ content ≠ []
         ∧ Post_validate (edited content now post) = true
         ∧ out.1 = set_posts <[id := edited content now post]> s).
Proof.
  simpl. unfold updatePost. case_bool_decide as Hcontent; [by left|].
  unfold_handler. simpl.
  destruct (whenActive Post.isActive (posts s !! id)) as [post|] eqn:Hpost;
    simpl; [|by left].
  apply whenActive_Some in Hpost as [Hpost Hact].
  case_bool_decide as Hauthor; simpl; [by left|].
  fold (edited content now post).
  destruct (Post_validate (edited content now post)) eqn:Hvalid; simpl; [|by left].
  right. split_and!; [done..|]. exists post. split_and!; try done.
Qed.

Lemma deletePost_effect (s : Store) (user : Actor) (id : N) :
  let out := run (deletePost user id) s in
  (out.1 = s ∧ success out.2 = false ∧ status out.2 ≠ 200%N)
  ∨ (status out.2 = 500%N ∧ success out.2 = false
     ∧ ∃ post,
         posts s !! id = Some post ∧ Post.isActive post = true
         ∧ threads s !! Post.thread post = None
         ∧ out.1 = set_posts <[id := Post.set_isActive false post]> s)
  ∨ (status out.2 = 200%N ∧ success out.2 = true
     ∧ ∃ post thread,
         posts s !! id = Some post ∧ Post.isActive post = true
         ∧ threads s !! Post.thread post = Some thread
         ∧ canMutate user (Post.author post) = true
         ∧ out.1 = mkStore
             (alter (User.incPostCount (-1)) (Post.author post) (users s))
             (alter (Category.incPostCount (-1)) (Thread.category thread) (categories s))
             (alter (Thread.incReplyCount (-1)) (Post.thread post) (threads s))
             (<[id := Post.set_isActive false post]> (posts s))).
Proof.
  simpl. unfold deletePost. unfold_handler. simpl.
  destruct (whenActive Post.isActive (posts s !! id)) as [post|] eqn:Hpost;
    simpl; [|by left].
  apply whenActive_Some in Hpost as [Hpost Hact].
  rewrite canMutate_false.
  destruct (canMutate user (Post.author post)) eqn:Hauth; simpl; [|by left].
  destruct (Post_validate (Post.set_isActive false post)); simpl; [|by left].
  destruct (threads s !! Post.thread post) as [thread|] eqn:Hthread; simpl.
  - right. right. split_and!; [done..|]. by exists post, thread.
  - right. left. split_and!; [done..|]. by exists post.
Qed.

Lemma getThread_effect (s : Store) (user : option Actor) (id : N) :
  let out := run (getThread user id) s in
  (out.1 = s ∧ status out.2 = 404%N ∧ success out.2 = false
   ∧ whenActive Thread.isActive (threads s !! id) = None)
  ∨ (status out.2 = 200%N ∧ success out.2 = true
     ∧ ∃ thread,
         threads s !! id = Some thread ∧ Thread.isActive thread = true
         ∧ out.1 = set_threads <[id := Thread.incViews 1 thread]> s).
Proof.
  simpl. unfold getThread. unfold_handler. simpl.
  destruct (whenActive Thread.isActive (threads s !! id)) as [thread|] eqn:Hthread;
    simpl; [|by left].
  apply whenActive_Some in Hthread as [Hthread Hact].
  right. split_and!; [done..|]. by exists thread.
Qed.

Lemma createThread_effect (s : Store) (user : Actor) (body : ThreadRoutes.Body)
    (newId : N) (now : Z) :
  let out := run (createThread user body newId now) s in
  (out.1 = s ∧ success out.2 = false ∧ status out.2 ≠ 201%N)
  ∨ (status out.2 = 201%N ∧ success out.2 = true
     ∧ ∃ category c,
         category_id body = Some category
         ∧ title body ≠ [] ∧ content body ≠ []
         ∧ categories s !! category = Some c ∧ Category.isActive c = true
         ∧ Thread_validate (fresh user body category now) = true
         ∧ threads s !! newId = None
         ∧ out.1 = mkStore
             (alter (User.incPostCount 1) (actor_id user) (users s))
             (alter (Category.incThreadCount 1) category (categories s))
             (<[newId := fresh user body category now]> (threads s))
             (posts s)).
Proof.
  simpl. unfold createThread.
  destruct (category_id body) as [category|]; [|by left].
  case_bool_decide as Htitle; simpl; [by left|].
  case_bool_decide as Hcontent; simpl; [by left|].
  unfold_handler. simpl.
  destruct (whenActive Category.isActive (categories s !! category)) as [c|] eqn:Hc;
    simpl; [|by left].
  apply whenActive_Some in Hc as [Hc Hact].
  fold (fresh user body category now).
  destruct (Thread_validate (fresh user body category now)) eqn:Hvalid; simpl;
    [|by left].
  destruct (threads s !! newId) eqn:Hnew; simpl; [by left|].
  right. split_and!; [done..|]. by exists category, c.
Qed.

Lemma updateThread_effect (s : Store) (user : Actor) (id : N) (body : Changes) :
  let out := run (updateThread user id body) s in
  (out.1 = s ∧ success out.2 = false ∧ status out.2 ≠ 200%N)
  ∨ (status out.2 = 200%N ∧ success out.2 = true
     ∧ ∃ thread,
         threads s !! id = Some thread ∧ Thread.isActive thread = true
         ∧ canMutate user (Thread.author thread) = true
         ∧ Thread_validate (revised body thread) = true
         ∧ out.1 = set_threads <[id := revised body thread]> s).
Proof.
  simpl. unfold updateThread. unfold_handler. simpl.
  destruct (whenActive Thread.isActive (threads s !! id)) as [thread|] eqn:Hthread;
    simpl; [|by left].
  apply whenActive_Some in Hthread as [Hthread Hact].
  rewrite canMutate_false.
  destruct (canMutate user (Thread.author thread)) eqn:Hauth; simpl; [|by left].
  fold (revised body thread).
  destruct (Thread_validate (revised body thread)) eqn:Hvalid; simpl; [|by left].
  right. split_and!; [done..|]. by exists thread.
Qed.

Lemma deleteThread_effect (s : Store) (user : Actor) (id : N) :
  let out := run (deleteThread user id) s in
  (out.1 = s ∧ success out.2 = false ∧ status out.2 ≠ 200%N)
  ∨ (status out.2 = 200%N ∧ success out.2 = true
     ∧ ∃ thread,
         threads s !! id = Some thread ∧ Thread.isActive thread = true
         ∧ canMutate user (Thread.author thread) = true
         ∧ out.1 = mkStore
             (users s)
             (alter (Category.incThreadCount (-1)) (Thread.category thread)
                    (categories s))
             (<[id := Thread.set_isActive false thread]> (threads s))
             (posts s)).
Proof.
  simpl. unfold deleteThread. unfold_handler. simpl.
  destruct (whenActive Thread.isActive (threads s !! id)) as [thread|] eqn:Hthread;
    simpl; [|by left].
  apply whenActive_Some in Hthread as [Hthread Hact].
  rewrite canMutate_false.
  destruct (canMutate user (Thread.author thread)) eqn:Hauth; simpl; [|by left].
  destruct (Thread_validate (Thread.set_isActive false thread)); simpl; [|by left].
  right. split_and!; [done..|]. by exists thread.
Qed.

Lemma getPosts_store (s : Store) (user : option Actor) (threadId : N)
    (page limit : option Z) :
  (run (getPosts user threadId page limit) s).1 = s.
Proof.
  unfold getPosts. unfold_handler. simpl.
  destruct (whenActive Thread.isActive (threads s !! threadId)); simpl; [|done].
  by destruct (skipLimit _ _ _).
Qed.

Lemma getThreads_store (textSearch : list N → Thread.t → bool) (s : Store)
    (user : option Actor) (q : Query) :
  (run (getThreads textSearch user q) s).1 = s.
Proof. unfold getThreads. unfold_handler. simpl. by destruct (skipLimit _ _ _). Qed.

(** Every request changes the store by one step. *)
Lemma handle_Step (textSearch : list N → Thread.t → bool) (req : Request) (s : Store) :
  Step s (handle textSearch req s).1.
Proof.
  unfold handle. destruct req; simpl.
  - rewrite getPosts_store. constructor.
  - destruct (createPost_effect s user body newId now)
      as [[-> _]|(_ & _ & threadId & thread & ? & ? & ? & ? & ? & ? & ->)]; [constructor|].
    by eapply (step_post_created s newId
                 (Post.mk (PostRoutes.content body) (actor_id user) threadId
                          (parentPostId body) true [] false None [] now) thread now).
  - rewrite likePost_store.
    destruct (whenActive Post.isActive (posts s !! id)) as [post|] eqn:Hpost;
      [|constructor].
    apply whenActive_Some in Hpost as [Hpost _].
    destruct (Post_validate post); [|constructor].
    by eapply step_post_edit.
  - destruct (updatePost_effect s user id content0 now)
      as [[-> _]|(_ & _ & post & ? & ? & ? & ? & ? & ->)]; [constructor|].
    eapply step_post_edit; [done..|]. by apply prefix_app_r.
  - destruct (deletePost_effect s user id)
      as [[-> _]|[(_ & _ & post & ? & ? & ? & ->)|(_ & _ & post & thread & ? & ? & ? & ? & ->)]].
    + constructor.
    + by eapply step_post_deleted_detached.
    + by eapply step_post_deleted.
  - rewrite getThreads_store. constructor.
  - destruct (getThread_effect s user id)
      as [(-> & _)|(_ & _ & thread & ? & ? & ->)]; [constructor|].
    eapply step_thread_edit; [done..|]. simpl. lia.
  - destruct (createThread_effect s user body newId now)
      as [[-> _]|(_ & _ & category & c & ? & ? & ? & ? & ? & ? & ? & ->)]; [constructor|].
    by eapply (step_thread_created s newId (fresh user body category now) c).
  - rewrite likeThread_store.
    destruct (whenActive Thread.isActive (threads s !! id)) as [thread|] eqn:Hthread;
      [|constructor].
    apply whenActive_Some in Hthread as [Hthread _].
    destruct (Thread_validate thread); [|constructor].
    by eapply step_thread_edit.
  - destruct (updateThread_effect s user id body)
      as [[-> _]|(_ & _ & thread & ? & ? & ? & ? & ->)]; [constructor|].
    eapply step_thread_edit; [done|unfold revised; by repeat case_match..].
  - destruct (deleteThread_effect s user id)
      as [[-> _]|(_ & _ & thread & ? & ? & ? & ->)]; [constructor|].
    by eapply step_thread_deleted.
Qed.

(** ** Counting documents *)

Lemma countWhere_nonneg {A} (P : A → Prop) `{!∀ x, Decision (P x)} (m : gmap N A) :
  0 ≤ countWhere P m.
Proof. unfold countWhere. lia. Qed.

Lemma countWhere_insert_None {A} (P : A → Prop) `{!∀ x, Decision (P x)}
    (m : gmap N A) (i : N) (x : A) :
  m !! i = None →
  countWhere P (<[i := x]> m) = countWhere P m + indicator (P x).
Proof.
  intros Hi. unfold countWhere, indicator. rewrite map_filter_insert. simpl.
  destruct (decide (P x)).
  - rewrite map_size_insert_None; [lia|].
    apply map_lookup_filter_None. by left.
  - rewrite delete_id by done. lia.
Qed.

Lemma countWhere_insert_Some {A} (P : A → Prop) `{!∀ x, Decision (P x)}
    (m : gmap N A) (i : N) (x y : A) :
  m !! i = Some y →
  countWhere P (<[i := x]> m) = countWhere P m - indicator (P y) + indicator (P x).
Proof.
  intros Hi.
  pose proof (countWhere_insert_None P (delete i m) i y (lookup_delete_eq m i)) as Hy.
  rewrite insert_delete_id in Hy by done. rewrite Hy.
  rewrite <- (insert_delete_eq m i x), countWhere_insert_None by apply lookup_delete_eq.
  lia.
Qed.

Lemma countWhere_ext {A} (P Q : A → Prop) `{!∀ x, Decision (P x)} `{!∀ x, Decision (Q x)}
    (m : gmap N A) :
  (∀ i x, m !! i = Some x → P x ↔ Q x) → countWhere P m = countWhere Q m.
Proof.
  intros HPQ. unfold countWhere. do 2 f_equal.
  apply (proj1 (map_filter_ext _ _ m)). intros i x Hx. simpl. by apply (HPQ i).
Qed.

Lemma countWhere_none {A} (P : A → Prop) `{!∀ x, Decision (P x)} (m : gmap N A) :
  (∀ i x, m !! i = Some x → ¬ P x) → countWhere P m = 0.
Proof.
  intros HP. unfold countWhere.
  rewrite (proj2 (map_size_empty_iff _)); [done|].
  apply map_empty_filter_2. intros i x Hx. simpl. by eapply HP.
Qed.

(** ** The counters count what they say *)

Ltac count_cases :=
  unfold indicator; repeat case_decide; destruct_and?; simplify_eq/=;
  repeat match goal with
  | H : ?b = true, H' : context [Is_true ?b] |- _ => rewrite H in H'; simpl in H'
  | H : ?b = false, H' : context [Is_true ?b] |- _ => rewrite H in H'; simpl in H'
  end;
  try lia; try congruence; try tauto.

Ltac step_cases H :=
  destruct H as
    [ | id p p' Hp Hthread Hauthor Hparent Hactive Hcreated Hhistory
      | id x x' Hx Hauthor Hcategory Hpinned Hlocked Hactive Hreply Hlast Hcreated Hviews
      | id p x now Hnew Hx Hopen Hunlocked Hactive Hlikes
      | id p x Hp Hactive Hx
      | id p Hp Hactive Hx
      | id x c Hnew Hc Hcategory Hactive Hpinned Hlocked Hreply Hviews Hlikes
      | id x Hx Hactive ].

Lemma postsAttached_Step (s s' : Store) :
  Step s s' → postsAttached s → postsAttached s'.
Proof.
  intros Hstep Hatt.
  step_cases Hstep; simpl; try done; intros i q; simpl.
  - rewrite lookup_insert_Some. intros [[_ <-]|[_ Hq]]; [|by eauto].
    rewrite Hthread. by eapply Hatt.
  - intros Hq. destruct (Hatt i q Hq) as [y Hy]. rewrite lookup_insert.
    case_decide; by eauto.
  - rewrite lookup_insert_Some, lookup_alter_is_Some.
    intros [[_ <-]|[_ Hq]]; by eauto.
  - rewrite lookup_insert_Some, lookup_alter_is_Some.
    intros [[_ <-]|[_ Hq]]; by eauto.
  - rewrite lookup_insert_Some. intros [[_ <-]|[_ Hq]]; [|by eauto].
    simpl. by eapply Hatt.
  - intros Hq. destruct (Hatt i q Hq) as [y Hy]. rewrite lookup_insert.
    case_decide; by eauto.
  - intros Hq. destruct (Hatt i q Hq) as [y Hy]. rewrite lookup_insert.
    case_decide; by eauto.
Qed.

Lemma replyCountsExact_Step (s s' : Store) :
  Step s s' → postsAttached s → replyCountsExact s → replyCountsExact s'.
Proof.
  intros Hstep Hatt Hexact.
  step_cases Hstep; simpl; try done; intros i y; unfold activePostsIn; simpl.
  - intros Hy. erewrite countWhere_insert_Some by done.
    rewrite (Hexact i y Hy). unfold activePostsIn, indicator.
    rewrite Hthread, Hactive. count_cases.
  - rewrite lookup_insert_Some. intros [[<- <-]|[_ Hy]]; [|by apply Hexact].
    rewrite Hreply. by apply Hexact.
  - rewrite countWhere_insert_None by done.
    rewrite lookup_alter_Some. intros [(<- & z & Hz & ->)|[Hne Hy]].
    + simpl. rewrite (Hexact _ z Hz). unfold activePostsIn. count_cases.
    + rewrite (Hexact i y Hy). unfold activePostsIn. count_cases.
  - erewrite countWhere_insert_Some by done.
    rewrite lookup_alter_Some. intros [(<- & z & Hz & ->)|[Hne Hy]].
    + simpl. rewrite (Hexact _ z Hz). unfold activePostsIn. count_cases.
    + rewrite (Hexact i y Hy). unfold activePostsIn. count_cases.
  - intros Hy. erewrite countWhere_insert_Some by done.
    rewrite (Hexact i y Hy). unfold activePostsIn. count_cases.
  - rewrite lookup_insert_Some. intros [[<- <-]|[_ Hy]]; [|by apply Hexact].
    rewrite Hreply. symmetry. apply countWhere_none.
    intros j q Hq [<- _]. destruct (Hatt j q Hq) as [z Hz]. congruence.
  - rewrite lookup_insert_Some. intros [[<- <-]|[_ Hy]]; [|by apply Hexact].
    exact (Hexact _ _ Hx).
Qed.

Lemma alter_as_insert {A} (f : A → A) (m : gmap N A) (i : N) (y : A) :
  m !! i = Some y → alter f i m = <[i := f y]> m.
Proof.
  intros Hy. apply map_eq. intros j. rewrite lookup_alter, lookup_insert.
  case_decide; [subst; by rewrite Hy | done].
Qed.

Lemma alter_absent {A} (f : A → A) (m : gmap N A) (i : N) :
  m !! i = None → alter f i m = m.
Proof.
  intros Hi. apply map_eq. intros j. rewrite lookup_alter.
  case_decide; [subst; by rewrite Hi | done].
Qed.

Lemma countWhere_alter {A} (P : A → Prop) `{!∀ x, Decision (P x)} (f : A → A)
    (m : gmap N A) (i : N) :
  (∀ x, P (f x) ↔ P x) → countWhere P (alter f i m) = countWhere P m.
Proof.
  intros Hf. destruct (m !! i) as [y|] eqn:Hy.
  - rewrite (alter_as_insert f m i y Hy), (countWhere_insert_Some P m i (f y) y Hy).
    unfold indicator. specialize (Hf y). repeat case_decide; tauto || lia.
  - by rewrite alter_absent.
Qed.

Lemma category_insert (m : gmap N Thread.t) (i j : N) (x x' : Thread.t) :
  m !! i = Some x → Thread.category x' = Thread.category x →
  Thread.category <$> <[i := x']> m !! j = Thread.category <$> m !! j.
Proof.
  intros Hx Hcat. rewrite lookup_insert. case_decide; [subst|done].
  rewrite Hx. simpl. by rewrite Hcat.
Qed.

Lemma category_alter (m : gmap N Thread.t) (f : Thread.t → Thread.t) (i j : N) :
  (∀ x, Thread.category (f x) = Thread.category x) →
  Thread.category <$> alter f i m !! j = Thread.category <$> m !! j.
Proof.
  intros Hf. rewrite lookup_alter. case_decide; [subst|done].
  destruct (m !! j); simpl; by rewrite ?Hf.
Qed.

Lemma threadCountsExact_Step (s s' : Store) :
  Step s s' → threadCountsExact s → threadCountsExact s'.
Proof.
  intros Hstep Hexact.
  step_cases Hstep; simpl; try done; intros i y; unfold activeThreadsIn; simpl.
  - intros Hy. erewrite countWhere_insert_Some by done.
    rewrite (Hexact i y Hy). unfold activeThreadsIn, indicator.
    rewrite Hcategory, Hactive. count_cases.
  - rewrite countWhere_alter by (by intros []).
    rewrite lookup_alter_Some. intros [(<- & z & Hz & ->)|[Hne Hy]];
      [exact (Hexact _ _ Hz) | exact (Hexact _ _ Hy)].
  - rewrite countWhere_alter by (by intros []).
    rewrite lookup_alter_Some. intros [(<- & z & Hz & ->)|[Hne Hy]];
      [exact (Hexact _ _ Hz) | exact (Hexact _ _ Hy)].
  - rewrite countWhere_insert_None by done.
    rewrite lookup_alter_Some. intros [(<- & z & Hz & ->)|[Hne Hy]].
    + simpl. rewrite (Hexact _ z Hz). unfold activeThreadsIn. count_cases.
    + rewrite (Hexact i y Hy). unfold activeThreadsIn. count_cases.
  - erewrite countWhere_insert_Some by done.
    rewrite lookup_alter_Some. intros [(<- & z & Hz & ->)|[Hne Hy]].
    + simpl. rewrite (Hexact _ z Hz). unfold activeThreadsIn. count_cases.
    + rewrite (Hexact i y Hy). unfold activeThreadsIn. count_cases.
Qed.

Lemma userPostCountsExact_Step (s s' : Store) :
  Step s s' → postsAttached s → userPostCountsExact s → userPostCountsExact s'.
Proof.
  intros Hstep Hatt Hexact.
  step_cases Hstep; simpl; try done; intros i y;
    unfold threadsBy, activePostsBy; simpl.
  - intros Hy. erewrite countWhere_insert_Some by done.
    rewrite (Hexact i y Hy). unfold threadsBy, activePostsBy, indicator.
    rewrite Hauthor, Hactive. count_cases.
  - intros Hy. erewrite countWhere_insert_Some by done.
    rewrite (Hexact i y Hy). unfold threadsBy, activePostsBy, indicator.
    rewrite Hauthor. count_cases.
  - rewrite countWhere_alter by (by intros []).
    rewrite countWhere_insert_None by done.
    rewrite lookup_alter_Some. intros [(<- & z & Hz & ->)|[Hne Hy]].
    + simpl. rewrite (Hexact _ z Hz). unfold threadsBy, activePostsBy. count_cases.
    + rewrite (Hexact i y Hy). unfold threadsBy, activePostsBy. count_cases.
  - rewrite countWhere_alter by (by intros []).
    erewrite countWhere_insert_Some by done.
    rewrite lookup_alter_Some. intros [(<- & z & Hz & ->)|[Hne Hy]].
    + simpl. rewrite (Hexact _ z Hz). unfold threadsBy, activePostsBy. count_cases.
    + rewrite (Hexact i y Hy). unfold threadsBy, activePostsBy. count_cases.
  - destruct (Hatt id p Hp) as [? ?]. congruence.
  - rewrite countWhere_insert_None by done.
    rewrite lookup_alter_Some. intros [(<- & z & Hz & ->)|[Hne Hy]].
    + simpl. rewrite (Hexact _ z Hz). unfold threadsBy, activePostsBy. count_cases.
    + rewrite (Hexact i y Hy). unfold threadsBy, activePostsBy. count_cases.
  - intros Hy. erewrite countWhere_insert_Some by done.
    rewrite (Hexact i y Hy). unfold threadsBy, activePostsBy. count_cases.
Qed.

Lemma categoryPostCountsExact_Step (s s' : Store) :
  Step s s' → postsAttached s → categoryPostCountsExact s → categoryPostCountsExact s'.
Proof.
  intros Hstep Hatt Hexact.
  step_cases Hstep; simpl; try done; intros i y; unfold activePostsUnder; simpl.
  - intros Hy. erewrite countWhere_insert_Some by done.
    rewrite (Hexact i y Hy). unfold activePostsUnder, indicator.
    rewrite Hthread, Hactive. count_cases.
  - intros Hy. rewrite (Hexact i y Hy). unfold activePostsUnder.
    apply countWhere_ext. intros j q Hq.
    by rewrite (category_insert _ _ _ x x').
  - rewrite countWhere_insert_None by done.
    rewrite (countWhere_ext _
      (λ q, Thread.category <$> threads s !! Post.thread q = Some i ∧ Post.isActive q))
      by (intros j q Hq; by rewrite category_alter by (by intros [])).
    unfold indicator. rewrite category_alter by (by intros []). rewrite Hx.
    rewrite lookup_alter_Some. intros [(<- & z & Hz & ->)|[Hne Hy]].
    + simpl. rewrite (Hexact _ z Hz). unfold activePostsUnder. count_cases.
    + rewrite (Hexact i y Hy). unfold activePostsUnder. count_cases.
  - erewrite countWhere_insert_Some by done.
    rewrite (countWhere_ext _
      (λ q, Thread.category <$> threads s !! Post.thread q = Some i ∧ Post.isActive q))
      by (intros j q Hq; by rewrite category_alter by (by intros [])).
    unfold indicator. rewrite !category_alter by (by intros []). simpl. rewrite Hx.
    rewrite lookup_alter_Some. intros [(<- & z & Hz & ->)|[Hne Hy]].
    + simpl. rewrite (Hexact _ z Hz). unfold activePostsUnder. count_cases.
    + rewrite (Hexact i y Hy). unfold activePostsUnder. count_cases.
  - destruct (Hatt id p Hp) as [? ?]. congruence.
  - rewrite (countWhere_ext _
      (λ q, Thread.category <$> threads s !! Post.thread q = Some i ∧ Post.isActive q)).
    2: { intros j q Hq. destruct (Hatt j q Hq) as [z Hz].
         rewrite lookup_insert_ne; [done|]. intros Heq. rewrite Heq in Hnew.
         congruence. }
    rewrite lookup_alter_Some. intros [(<- & z & Hz & ->)|[Hne Hy]];
      [exact (Hexact _ _ Hz) | exact (Hexact _ _ Hy)].
  - rewrite (countWhere_ext _
      (λ q, Thread.category <$> threads s !! Post.thread q = Some i ∧ Post.isActive q))
      by (intros j q Hq; by rewrite (category_insert _ _ _ x)).
    rewrite lookup_alter_Some. intros [(<- & z & Hz & ->)|[Hne Hy]];
      [exact (Hexact _ _ Hz) | exact (Hexact _ _ Hy)].
Qed.

(** ** Requests in sequence *)

Lemma replay_app (textSearch : list N → Thread.t → bool) (reqs : list Request)
    (req : Request) (s : Store) :
  replay textSearch (reqs ++ [req]) s
  = (handle textSearch req (replay textSearch reqs s)).1.
Proof. unfold replay. by rewrite foldl_app. Qed.

(** What every request keeps, every sequence of requests keeps. *)
Lemma replay_invariant (textSearch : list N → Thread.t → bool) (I : Store → Prop) :
  (∀ s s', Step s s' → I s → I s') →
  ∀ reqs s, I s → I (replay textSearch reqs s).
Proof.
  intros Hstep reqs. induction reqs as [|req reqs IH]; intros s Hs; [done|].
  simpl. apply IH. eapply Hstep; [apply handle_Step | done].
Qed.

Lemma threadSucceeds_refl (x : Thread.t) : threadSucceeds x x.
Proof. unfold threadSucceeds. split_and!; try done. Qed.

Lemma threadSucceeds_trans (x y z : Thread.t) :
  threadSucceeds x y → threadSucceeds y z → threadSucceeds x z.
Proof.
  unfold threadSucceeds. intros (? & ? & ? & ? & ? & ? & ?) (? & ? & ? & ? & ? & ? & ?).
  split_and!; try congruence; try lia; auto.
Qed.

Lemma postSucceeds_refl (p : Post.t) : postSucceeds p p.
Proof. unfold postSucceeds. split_and!; try done. Qed.

Lemma postSucceeds_trans (p q r : Post.t) :
  postSucceeds p q → postSucceeds q r → postSucceeds p r.
Proof.
  unfold postSucceeds. intros (? & ? & ? & ? & ? & ?) (? & ? & ? & ? & ? & ?).
  split_and!; try congruence; try (by etrans); auto.
Qed.

Lemma Step_threads (s s' : Store) (i : N) (y : Thread.t) :
  Step s s' → threads s !! i = Some y →
  ∃ y', threads s' !! i = Some y' ∧ threadSucceeds y y'.
Proof.
  intros Hstep Hy.
  step_cases Hstep; simpl; eauto using threadSucceeds_refl.
  - destruct (decide (id = i)) as [->|Hne].
    + exists x'. rewrite lookup_insert_eq. split; [done|].
      assert (y = x) as -> by congruence.
      unfold threadSucceeds. split_and!; try done. congruence.
    + exists y. rewrite lookup_insert_ne by done. eauto using threadSucceeds_refl.
  - rewrite lookup_alter. case_decide as Heq; [|by eauto using threadSucceeds_refl].
    rewrite Heq, Hy. simpl. eexists. split; [done|].
    unfold threadSucceeds. simpl. split_and!; done || lia.
  - rewrite lookup_alter. case_decide as Heq; [|by eauto using threadSucceeds_refl].
    rewrite Heq, Hy. simpl. eexists. split; [done|].
    unfold threadSucceeds. simpl. split_and!; done || lia.
  - exists y. rewrite lookup_insert_ne by congruence. eauto using threadSucceeds_refl.
  - destruct (decide (id = i)) as [->|Hne].
    + eexists. rewrite lookup_insert_eq. split; [done|].
      assert (y = x) as -> by congruence.
      unfold threadSucceeds. by split_and!.
    + exists y. rewrite lookup_insert_ne by done. eauto using threadSucceeds_refl.
Qed.

Lemma Step_posts (s s' : Store) (i : N) (q : Post.t) :
  Step s s' → posts s !! i = Some q →
  ∃ q', posts s' !! i = Some q' ∧ postSucceeds q q'.
Proof.
  intros Hstep Hq.
  step_cases Hstep; simpl; eauto using postSucceeds_refl.
  - destruct (decide (id = i)) as [->|Hne].
    + exists p'. rewrite lookup_insert_eq. split; [done|].
      assert (q = p) as -> by congruence.
      unfold postSucceeds. split_and!; try done. congruence.
    + exists q. rewrite lookup_insert_ne by done. eauto using postSucceeds_refl.
  - exists q. rewrite lookup_insert_ne by congruence. eauto using postSucceeds_refl.
  - destruct (decide (id = i)) as [->|Hne].
    + eexists. rewrite lookup_insert_eq. split; [done|].
      assert (q = p) as -> by congruence.
      unfold postSucceeds. by split_and!.
    + exists q. rewrite lookup_insert_ne by done. eauto using postSucceeds_refl.
  - destruct (decide (id = i)) as [->|Hne].
    + eexists. rewrite lookup_insert_eq. split; [done|].
      assert (q = p) as -> by congruence.
      unfold postSucceeds. by split_and!.
    + exists q. rewrite lookup_insert_ne by done. eauto using postSucceeds_refl.
Qed.

Lemma Step_users (s s' : Store) (i : N) (u : User.t) :
  Step s s' → users s !! i = Some u →
  ∃ u', users s' !! i = Some u' ∧ userSucceeds u u'.
Proof.
  assert (∀ u, userSucceeds u u) as Hrefl.
  { intros v. exists 0. destruct v. unfold User.incPostCount. simpl. f_equal. lia. }
  intros Hstep Hu.
  step_cases Hstep; simpl; eauto.
  all: rewrite lookup_alter; case_decide as Heq; [|by eauto].
  all: rewrite Heq, Hu; simpl; eexists; split; [done|]; by eexists.
Qed.

Lemma Step_categories (s s' : Store) (i : N) (c0 : Category.t) :
  Step s s' → categories s !! i = Some c0 →
  ∃ c', categories s' !! i = Some c' ∧ categorySucceeds c0 c'.
Proof.
  assert (∀ c d, categorySucceeds c (Category.incPostCount d c)) as Hposts.
  { intros v d. exists 0, d. destruct v.
    unfold Category.incThreadCount, Category.incPostCount. simpl. f_equal. lia. }
  assert (∀ c d, categorySucceeds c (Category.incThreadCount d c)) as Hthreads.
  { intros v d. exists d, 0. destruct v.
    unfold Category.incThreadCount, Category.incPostCount. simpl. f_equal. lia. }
  assert (∀ c, categorySucceeds c c) as Hrefl.
  { intros v. exists 0, 0. destruct v.
    unfold Category.incThreadCount, Category.incPostCount. simpl. f_equal; lia. }
  intros Hstep Hc0.
  step_cases Hstep; simpl; eauto.
  all: rewrite lookup_alter; case_decide as Heq; [|by eauto].
  all: rewrite Heq, Hc0; simpl; eexists; split; [done|]; eauto.
Qed.

(** X1. Whatever requests are served, a thread of the store stays in the
    store with the author, category, pin flag, lock flag and creation time
    it had; its views never go down; once soft-deleted it is never active
    again. *)
Theorem threads_only_move_forward (textSearch : list N → Thread.t → bool)
    (reqs : list Request) (s : Store) (id : N) (x : Thread.t) :
  threads s !! id = Some x →
  ∃ x', threads (replay textSearch reqs s) !! id = Some x' ∧ threadSucceeds x x'.
Proof.
  revert s x. induction reqs as [|req reqs IH]; intros s x Hx; simpl.
  - exists x. split; [done|]. apply threadSucceeds_refl.
  - destruct (Step_threads _ _ id x (handle_Step textSearch req s) Hx) as (y & Hy & Hxy).
    destruct (IH _ y Hy) as (z & Hz & Hyz).
    exists z. split; [done|]. by eapply threadSucceeds_trans.
Qed.

Lemma threads_only_move_forward_witness :
  ∃ x', threads (replay noSearch Scenario_session s2) !! T = Some x'
        ∧ threadSucceeds thread_T x'.
Proof.
  apply (threads_only_move_forward noSearch Scenario_session s2 T thread_T).
  by vm_compute.
Defined.

(** X2. Whatever requests are served, a post of the store stays in the
    store with the author, thread, parent and creation time it had; its edit
    history only grows at the end; once soft-deleted it is never active
    again. *)
Theorem posts_only_move_forward (textSearch : list N → Thread.t → bool)
    (reqs : list Request) (s : Store) (id : N) (p : Post.t) :
  posts s !! id = Some p →
  ∃ p', posts (replay textSearch reqs s) !! id = Some p' ∧ postSucceeds p p'.
Proof.
  revert s p. induction reqs as [|req reqs IH]; intros s p Hp; simpl.
  - exists p. split; [done|]. apply postSucceeds_refl.
  - destruct (Step_posts _ _ id p (handle_Step textSearch req s) Hp) as (q & Hq & Hpq).
    destruct (IH _ q Hq) as (r & Hr & Hqr).
    exists r. split; [done|]. by eapply postSucceeds_trans.
Qed.

Lemma posts_only_move_forward_witness :
  ∃ p', posts (replay noSearch Scenario_session s2) !! P = Some p'
        ∧ postSucceeds post_P p'.
Proof.
  apply (posts_only_move_forward noSearch Scenario_session s2 P post_P).
  by vm_compute.
Defined.

(** X3. Whatever requests of the posts and threads routers are served, a
    user and a category of the store stay in the store, and differ from what
    they were in their counters only ([postCount]; [threadCount] and
    [postCount]). *)
Theorem users_and_categories_change_in_counters_only
    (textSearch : list N → Thread.t → bool) (reqs : list Request) (s : Store) :
  (∀ id u, users s !! id = Some u →
     ∃ u', users (replay textSearch reqs s) !! id = Some u' ∧ userSucceeds u u')
  ∧ (∀ id c, categories s !! id = Some c →
     ∃ c', categories (replay textSearch reqs s) !! id = Some c'
           ∧ categorySucceeds c c').
Proof.
  split.
  - revert s. induction reqs as [|req reqs IH]; intros s id u Hu; simpl.
    + exists u. split; [done|]. exists 0. destruct u.
      unfold User.incPostCount. simpl. f_equal. lia.
    + destruct (Step_users _ _ id u (handle_Step textSearch req s) Hu)
        as (v & Hv & [d ->]).
      destruct (IH _ id _ Hv) as (w & Hw & [e ->]).
      exists (User.incPostCount e (User.incPostCount d u)). split; [done|].
      exists (d + e). unfold User.incPostCount. simpl. f_equal. lia.
  - revert s. induction reqs as [|req reqs IH]; intros s id c Hc; simpl.
    + exists c. split; [done|]. exists 0, 0. destruct c.
      unfold Category.incThreadCount, Category.incPostCount. simpl. f_equal; lia.
    + destruct (Step_categories _ _ id c (handle_Step textSearch req s) Hc)
        as (v & Hv & (d & e & ->)).
      destruct (IH _ id _ Hv) as (w & Hw & (d' & e' & ->)).
      eexists. split; [done|].
      exists (d + d'), (e + e').
      unfold Category.incThreadCount, Category.incPostCount. simpl. f_equal; lia.
Qed.

Lemma users_and_categories_change_in_counters_only_witness :
  (∃ u', users (replay noSearch Scenario_session s2) !! actor_id B = Some u'
         ∧ userSucceeds (User.incPostCount 1 (account "B" RoleUser)) u')
  ∧ (∃ c', categories (replay noSearch Scenario_session s2) !! General = Some c'
           ∧ categorySucceeds
               (Category.incPostCount 1 (Category.incThreadCount 1 (section "General")))
               c').
Proof.
  split.
  - apply (proj1 (users_and_categories_change_in_counters_only
                    noSearch Scenario_session s2)).
    by vm_compute.
  - apply (proj2 (users_and_categories_change_in_counters_only
                    noSearch Scenario_session s2)).
    by vm_compute.
Defined.

(** X4. If every post belongs to a thread of the store and every thread's
    [replyCount] is the number of its active posts, both are still so after
    any sequence of requests. *)
Theorem replyCounts_stay_exact (textSearch : list N → Thread.t → bool)
    (reqs : list Request) (s : Store) :
  postsAttached s → replyCountsExact s →
  postsAttached (replay textSearch reqs s)
  ∧ replyCountsExact (replay textSearch reqs s).
Proof.
  intros Hatt Hexact.
  apply (replay_invariant textSearch (λ s, postsAttached s ∧ replyCountsExact s));
    [|done].
  intros s1 s2 Hstep [Hatt1 Hexact1].
  split; [by eapply postsAttached_Step | by eapply replyCountsExact_Step].
Qed.

Lemma replyCounts_stay_exact_witness :
  postsAttached (replay noSearch Scenario_session s2)
  ∧ replyCountsExact (replay noSearch Scenario_session s2).
Proof.
  apply (replyCounts_stay_exact noSearch Scenario_session s2);
    apply (bool_decide_unpack _); by vm_compute.
Defined.

(** X5. If every category's [threadCount] is the number of its active
    threads, it is still so after any sequence of requests. *)
Theorem threadCounts_stay_exact (textSearch : list N → Thread.t → bool)
    (reqs : list Request) (s : Store) :
  threadCountsExact s → threadCountsExact (replay textSearch reqs s).
Proof.
  apply (replay_invariant textSearch threadCountsExact).
  intros s1 s2 Hstep. by apply threadCountsExact_Step.
Qed.

Lemma threadCounts_stay_exact_witness :
  threadCountsExact (replay noSearch Scenario_session s2).
Proof.
  apply (threadCounts_stay_exact noSearch Scenario_session s2).
  apply (bool_decide_unpack _). by vm_compute.
Defined.

(** X6. If every post belongs to a thread of the store and every
    category's [postCount] is the number of active posts in its threads
    (soft-deleted threads included), both are still so after any sequence of
    requests. *)
Theorem categoryPostCounts_stay_exact (textSearch : list N → Thread.t → bool)
    (reqs : list Request) (s : Store) :
  postsAttached s → categoryPostCountsExact s →
  postsAttached (replay textSearch reqs s)
  ∧ categoryPostCountsExact (replay textSearch reqs s).
Proof.
  intros Hatt Hexact.
  apply (replay_invariant textSearch
           (λ s, postsAttached s ∧ categoryPostCountsExact s)); [|done].
  intros s1 s2 Hstep [Hatt1 Hexact1].
  split; [by eapply postsAttached_Step | by eapply categoryPostCountsExact_Step].
Qed.

Lemma categoryPostCounts_stay_exact_witness :
  postsAttached (replay noSearch Scenario_session s2)
  ∧ categoryPostCountsExact (replay noSearch Scenario_session s2).
Proof.
  apply (categoryPostCounts_stay_exact noSearch Scenario_session s2);
    apply (bool_decide_unpack _); by vm_compute.
Defined.

(** X7. If every post belongs to a thread of the store and every user's
    [postCount] is the number of threads the user has opened (soft-deleted
    ones included) plus the number of the user's active posts, both are
    still so after any sequence of requests: deleting a thread does not give
    the post count back. *)
Theorem userPostCounts_stay_exact (textSearch : list N → Thread.t → bool)
    (reqs : list Request) (s : Store) :
  postsAttached s → userPostCountsExact s →
  postsAttached (replay textSearch reqs s)
  ∧ userPostCountsExact (replay textSearch reqs s).
Proof.
  intros Hatt Hexact.
  apply (replay_invariant textSearch
           (λ s, postsAttached s ∧ userPostCountsExact s)); [|done].
  intros s1 s2 Hstep [Hatt1 Hexact1].
  split; [by eapply postsAttached_Step | by eapply userPostCountsExact_Step].
Qed.

Lemma userPostCounts_stay_exact_witness :
  postsAttached (replay noSearch Scenario_session s2)
  ∧ userPostCountsExact (replay noSearch Scenario_session s2).
Proof.
  apply (userPostCounts_stay_exact noSearch Scenario_session s2);
    apply (bool_decide_unpack _); by vm_compute.
Defined.

(** ** Likes *)

Lemma likedBy_elem_of (uid : N) (likes : list Like) :
  likedBy uid likes = bool_decide (uid ∈ likers likes).
Proof.
  unfold likedBy, likers. induction likes as [|like likes IH].
  - symmetry. apply bool_decide_eq_false_2, not_elem_of_nil.
  - rewrite fmap_cons. cbn [existsb]. rewrite IH.
    destruct (decide (like_user like = uid)) as [Heq|Hne].
    + rewrite (bool_decide_eq_true_2 _ Heq). simpl. symmetry.
      apply bool_decide_eq_true_2. rewrite elem_of_cons. by left.
    + rewrite (bool_decide_eq_false_2 _ Hne). simpl.
      apply bool_decide_ext. rewrite elem_of_cons. split; [by right|].
      intros [?|?]; [congruence|done].
Qed.

Lemma existingLike_likedBy (uid : N) (likes : list Like) :
  match existingLike uid likes with Some _ => false | None => true end
  = negb (likedBy uid likes).
Proof.
  rewrite likedBy_elem_of. destruct (existingLike uid likes) eqn:E.
  - destruct (decide (uid ∈ likers likes)) as [Hin|Hnot].
    + by rewrite bool_decide_eq_true_2.
    + apply existingLike_None in Hnot. congruence.
  - apply existingLike_None in E. by rewrite bool_decide_eq_false_2.
Qed.

Lemma likePost_effect (s : Store) (user : Actor) (id : N) (now : Z) :
  let out := run (likePost user id now) s in
  (out.1 = s ∧ success out.2 = false ∧ status out.2 ≠ 200%N)
  ∨ (status out.2 = 200%N ∧ success out.2 = true
     ∧ ∃ post,
         posts s !! id = Some post ∧ Post.isActive post = true
         ∧ out.1 = set_posts
             <[id := Post.set_likes (toggleLike (actor_id user) now (Post.likes post))
                       post]> s
         ∧ data out.2 =
             Some (LikeToggled (negb (likedBy (actor_id user) (Post.likes post)))
                     (length (toggleLike (actor_id user) now (Post.likes post))))).
Proof.
  simpl. unfold likePost. unfold_handler. simpl.
  destruct (whenActive Post.isActive (posts s !! id)) as [post|] eqn:Hpost;
    simpl; [|by left].
  apply whenActive_Some in Hpost as [Hpost Hact].
  change (Post_validate (Post.set_likes _ post)) with (Post_validate post).
  destruct (Post_validate post); simpl; [|by left].
  right. split_and!; [done..|]. exists post. split_and!; try done.
  by rewrite existingLike_likedBy.
Qed.

Lemma likeThread_effect (s : Store) (user : Actor) (id : N) (now : Z) :
  let out := run (likeThread user id now) s in
  (out.1 = s ∧ success out.2 = false ∧ status out.2 ≠ 200%N)
  ∨ (status out.2 = 200%N ∧ success out.2 = true
     ∧ ∃ thread,
         threads s !! id = Some thread ∧ Thread.isActive thread = true
         ∧ out.1 = set_threads
             <[id := Thread.set_likes
                       (toggleLike (actor_id user) now (Thread.likes thread)) thread]> s
         ∧ data out.2 =
             Some (LikeToggled (negb (likedBy (actor_id user) (Thread.likes thread)))
                     (length (toggleLike (actor_id user) now (Thread.likes thread))))).
Proof.
  simpl. unfold likeThread. unfold_handler. simpl.
  destruct (whenActive Thread.isActive (threads s !! id)) as [thread|] eqn:Hthread;
    simpl; [|by left].
  apply whenActive_Some in Hthread as [Hthread Hact].
  change (Thread_validate (Thread.set_likes _ thread)) with (Thread_validate thread).
  destruct (Thread_validate thread); simpl; [|by left].
  right. split_and!; [done..|]. exists thread. split_and!; try done.
  by rewrite existingLike_likedBy.
Qed.

Lemma likedBy_toggleLike (uid u : N) (now : Z) (likes : list Like) :
  likedBy u (toggleLike uid now likes)
  = if decide (u = uid) then negb (likedBy uid likes) else likedBy u likes.
Proof.
  rewrite !likedBy_elem_of, likers_toggleLike.
  destruct (decide (uid ∈ likers likes)) as [Hin|Hnot].
  - case_decide as Heq.
    + subst. rewrite (bool_decide_eq_true_2 _ Hin). simpl.
      apply bool_decide_eq_false_2. rewrite list_elem_of_filter. by intros [? _].
    + apply bool_decide_ext. rewrite list_elem_of_filter. tauto.
  - case_decide as Heq.
    + subst. rewrite (bool_decide_eq_false_2 _ Hnot). simpl.
      apply bool_decide_eq_true_2. rewrite elem_of_app, list_elem_of_singleton. by right.
    + apply bool_decide_ext. rewrite elem_of_app, list_elem_of_singleton. tauto.
Qed.

(** X8. A like request that succeeds flips whether the actor is among the
    likers of the post (of the thread) and leaves every other user's like as
    it was; the response reports the new state and the new number of likes;
    nothing else in the store changes. *)
Theorem like_flips (s : Store) (user : Actor) (id : N) (now : Z) :
  (status (run (likePost user id now) s).2 = 200%N →
   ∃ post post',
     posts s !! id = Some post
     ∧ (run (likePost user id now) s).1 = set_posts <[id := post']> s
     ∧ post' = Post.set_likes (Post.likes post') post
     ∧ (∀ u, likedBy u (Post.likes post') =
             if decide (u = actor_id user) then negb (likedBy u (Post.likes post))
             else likedBy u (Post.likes post))
     ∧ data (run (likePost user id now) s).2 =
         Some (LikeToggled (likedBy (actor_id user) (Post.likes post'))
                           (length (Post.likes post'))))
  ∧ (status (run (likeThread user id now) s).2 = 200%N →
   ∃ thread thread',
     threads s !! id = Some thread
     ∧ (run (likeThread user id now) s).1 = set_threads <[id := thread']> s
     ∧ thread' = Thread.set_likes (Thread.likes thread') thread
     ∧ (∀ u, likedBy u (Thread.likes thread') =
             if decide (u = actor_id user) then negb (likedBy u (Thread.likes thread))
             else likedBy u (Thread.likes thread))
     ∧ data (run (likeThread user id now) s).2 =
         Some (LikeToggled (likedBy (actor_id user) (Thread.likes thread'))
                           (length (Thread.likes thread')))).
Proof.
  split; intros Hok.
  - destruct (likePost_effect s user id now)
      as [(_ & _ & Hfail)|(_ & _ & post & Hpost & _ & Hstore & Hdata)]; [done|].
    eexists post, _. split_and!; [done | exact Hstore | done | |].
    + intros u. simpl. rewrite likedBy_toggleLike. by case_decide; subst.
    + rewrite Hdata. simpl. rewrite likedBy_toggleLike. by rewrite decide_True.
  - destruct (likeThread_effect s user id now)
      as [(_ & _ & Hfail)|(_ & _ & thread & Hthread & _ & Hstore & Hdata)]; [done|].
    eexists thread, _. split_and!; [done | exact Hstore | done | |].
    + intros u. simpl. rewrite likedBy_toggleLike. by case_decide; subst.
    + rewrite Hdata. simpl. rewrite likedBy_toggleLike. by rewrite decide_True.
Qed.

Lemma like_flips_witness :
  (∃ post post',
     posts s2 !! P = Some post
     ∧ (run (likePost A P 300) s2).1 = set_posts <[P := post']> s2
     ∧ post' = Post.set_likes (Post.likes post') post
     ∧ (∀ u, likedBy u (Post.likes post') =
             if decide (u = actor_id A) then negb (likedBy u (Post.likes post))
             else likedBy u (Post.likes post))
     ∧ data (run (likePost A P 300) s2).2 =
         Some (LikeToggled (likedBy (actor_id A) (Post.likes post'))
                           (length (Post.likes post'))))
  ∧ (∃ thread thread',
     threads s2 !! T = Some thread
     ∧ (run (likeThread A T 300) s2).1 = set_threads <[T := thread']> s2
     ∧ thread' = Thread.set_likes (Thread.likes thread') thread
     ∧ (∀ u, likedBy u (Thread.likes thread') =
             if decide (u = actor_id A) then negb (likedBy u (Thread.likes thread))
             else likedBy u (Thread.likes thread))
     ∧ data (run (likeThread A T 300) s2).2 =
         Some (LikeToggled (likedBy (actor_id A) (Thread.likes thread'))
                           (length (Thread.likes thread')))).
Proof.
  split.
  - apply (proj1 (like_flips s2 A P 300)). by vm_compute.
  - apply (proj2 (like_flips s2 A T 300)). by vm_compute.
Defined.

(** ** Failures *)



(** ** POST /posts *)

Lemma maxlength_le (n : N) (text : list N) :
  maxlength n text = true ↔ (N.of_nat (length text) ≤ n)%N.
Proof. unfold maxlength. apply N.leb_le. Qed.

Lemma required_nonempty (text : list N) : required text = true ↔ text ≠ [].
Proof.
  unfold required. case_bool_decide; simpl; split; done.
Qed.

Lemma Post_findOne_in_Some (s : Store) (id threadId : N) (p : Post.t) :
  whenActive (λ p, bool_decide (Post.thread p = threadId) && Post.isActive p)
             (posts s !! id) = Some p
  ↔ posts s !! id = Some p ∧ Post.thread p = threadId ∧ Post.isActive p = true.
Proof.
  rewrite whenActive_Some, andb_true_iff, bool_decide_eq_true. tauto.
Qed.

(** X10. POST /posts answers 201 exactly when the body names a thread and
    has a content of 1 to 5000 code units, the thread is active and not
    locked, the parent post, if one is named, is an active post of that
    thread, and the new id is not taken. *)
Theorem createPost_succeeds_iff (s : Store) (user : Actor) (body : PostRoutes.Body)
    (newId : N) (now : Z) :
  status (run (createPost user body newId now) s).2 = 201%N
  ↔ ∃ threadId thread,
      PostRoutes.threadId body = Some threadId
      ∧ PostRoutes.content body ≠ []
      ∧ (N.of_nat (length (PostRoutes.content body)) ≤ 5000)%N
      ∧ threads s !! threadId = Some thread
      ∧ Thread.isActive thread = true ∧ Thread.isLocked thread = false
      ∧ (∀ parent, parentPostId body = Some parent →
           ∃ p, posts s !! parent = Some p
                ∧ Post.thread p = threadId ∧ Post.isActive p = true)
      ∧ posts s !! newId = None.
Proof.
  unfold createPost.
  destruct (PostRoutes.threadId body) as [threadId|];
    [|split; [done | by intros (? & ? & ? & _)]].
  case_bool_decide as Hcontent;
    [split; [done | by intros (? & ? & _ & ? & _)]|].
  unfold_handler. simpl.
  destruct (whenActive Thread.isActive (threads s !! threadId)) as [thread|] eqn:Hthread;
    simpl.
  2: { split; [done|]. intros (t & x & [= <-] & _ & _ & Hx & Hact & _).
       assert (whenActive Thread.isActive (threads s !! threadId) = Some x) as Hsome
         by by apply whenActive_Some.
       congruence. }
  apply whenActive_Some in Hthread as [Hthread Hact].
  destruct (Thread.isLocked thread) eqn:Hlock; simpl.
  { split; [done|]. intros (t & x & [= <-] & _ & _ & Hx & _ & Hunlocked & _).
    congruence. }
  assert (Post_validate
            (Post.mk (PostRoutes.content body) (actor_id user) threadId
                     (parentPostId body) true [] false None [] now) = true
          ↔ (N.of_nat (length (PostRoutes.content body)) ≤ 5000)%N) as Hvalid.
  { unfold Post_validate. simpl.
    rewrite andb_true_iff, required_nonempty, maxlength_le. tauto. }
  destruct (parentPostId body) as [parent|] eqn:Hparent; simpl.
  - destruct (whenActive _ (posts s !! parent)) as [pp|] eqn:Hpp; simpl.
    2: { split; [done|]. intros (t & x & [= <-] & _ & _ & _ & _ & _ & Hp & _).
         destruct (Hp parent eq_refl) as (p & Hp1 & Hp2 & Hp3).
         assert (whenActive (λ p, bool_decide (Post.thread p = threadId) && Post.isActive p)
                            (posts s !! parent) = Some p) as Hsome
           by by apply Post_findOne_in_Some.
         congruence. }
    apply Post_findOne_in_Some in Hpp as (Hpp1 & Hpp2 & Hpp3).
    destruct (Post_validate _) eqn:Hv; simpl.
    2: { split; [done|]. intros (? & ? & _ & _ & Hlen & _).
         apply Hvalid in Hlen. congruence. }
    destruct (posts s !! newId) eqn:Hnew; simpl.
    { split; [done|]. by intros (? & ? & _ & _ & _ & _ & _ & _ & _ & ?). }
    rewrite lookup_insert_eq. simpl. split; [intros _|done].
    exists threadId, thread. split_and!; try done; [by apply Hvalid|].
    intros ? [= <-]. by exists pp.
  - destruct (Post_validate _) eqn:Hv; simpl.
    2: { split; [done|]. intros (? & ? & _ & _ & Hlen & _).
         apply Hvalid in Hlen. congruence. }
    destruct (posts s !! newId) eqn:Hnew; simpl.
    { split; [done|]. by intros (? & ? & _ & _ & _ & _ & _ & _ & _ & ?). }
    rewrite lookup_insert_eq. simpl. split; [intros _|done].
    exists threadId, thread. split_and!; try done. by apply Hvalid.
Qed.

Lemma createPost_succeeds_iff_witness :
  ∃ threadId thread,
    PostRoutes.threadId reply = Some threadId
    ∧ PostRoutes.content reply ≠ []
    ∧ (N.of_nat (length (PostRoutes.content reply)) ≤ 5000)%N
    ∧ threads s1 !! threadId = Some thread
    ∧ Thread.isActive thread = true ∧ Thread.isLocked thread = false
    ∧ (∀ parent, parentPostId reply = Some parent →
         ∃ p, posts s1 !! parent = Some p
              ∧ Post.thread p = threadId ∧ Post.isActive p = true)
    ∧ posts s1 !! P = None.
Proof.
  apply (proj1 (createPost_succeeds_iff s1 B reply P 200)). by vm_compute.
Defined.



(** ** PUT /posts/:id *)



(** ** Soft deletion *)

Lemma replay_post_inactive (textSearch : list N → Thread.t → bool)
    (reqs : list Request) (s : Store) (id : N) (p : Post.t) :
  posts s !! id = Some p → Post.isActive p = false →
  ∃ p', posts (replay textSearch reqs s) !! id = Some p' ∧ Post.isActive p' = false.
Proof.
  revert s p. induction reqs as [|req reqs IH]; intros s p Hp Hinactive; simpl.
  - by exists p.
  - destruct (Step_posts _ _ id p (handle_Step textSearch req s) Hp)
      as (q & Hq & (_ & _ & _ & _ & _ & Hstays)).
    by apply (IH _ q Hq), Hstays.
Qed.

Lemma replay_thread_inactive (textSearch : list N → Thread.t → bool)
    (reqs : list Request) (s : Store) (id : N) (x : Thread.t) :
  threads s !! id = Some x → Thread.isActive x = false →
  ∃ x', threads (replay textSearch reqs s) !! id = Some x'
        ∧ Thread.isActive x' = false.
Proof.
  revert s x. induction reqs as [|req reqs IH]; intros s x Hx Hinactive; simpl.
  - by exists x.
  - destruct (Step_threads _ _ id x (handle_Step textSearch req s) Hx)
      as (y & Hy & (_ & _ & _ & _ & _ & _ & Hstays)).
    by apply (IH _ y Hy), Hstays.
Qed.

Lemma inactive_post_not_found (s : Store) (id : N) (p : Post.t) :
  posts s !! id = Some p → Post.isActive p = false →
  whenActive Post.isActive (posts s !! id) = None.
Proof. intros -> Hp. simpl. by rewrite Hp. Qed.

Lemma inactive_thread_not_found (s : Store) (id : N) (x : Thread.t) :
  threads s !! id = Some x → Thread.isActive x = false →
  whenActive Thread.isActive (threads s !! id) = None.
Proof. intros -> Hx. simpl. by rewrite Hx. Qed.

(** X13. A soft-deleted post stays out of reach whatever requests follow:
    liking it, editing it (with a content) and deleting it are answered 404. *)
Theorem soft_deleted_post_is_gone (textSearch : list N → Thread.t → bool)
    (reqs : list Request) (s : Store) (id : N) (p : Post.t)
    (user : Actor) (content : list N) (now : Z) :
  posts s !! id = Some p → Post.isActive p = false → content ≠ [] →
  let s' := replay textSearch reqs s in
  status (run (likePost user id now) s').2 = 404%N
  ∧ status (run (updatePost user id content now) s').2 = 404%N
  ∧ status (run (deletePost user id) s').2 = 404%N.
Proof.
  intros Hp Hinactive Hcontent. simpl.
  destruct (replay_post_inactive textSearch reqs s id p Hp Hinactive)
    as (p' & Hp' & Hinactive').
  pose proof (inactive_post_not_found _ _ _ Hp' Hinactive') as Hnone.
  unfold likePost, updatePost, deletePost. unfold_handler. simpl.
  rewrite bool_decide_eq_false_2 by done. simpl. by rewrite Hnone.
Qed.

Lemma soft_deleted_post_is_gone_witness :
  let s' := replay noSearch [CreatePost A reply 31 400; GetThread None T] s3 in
  status (run (likePost B P 500) s').2 = 404%N
  ∧ status (run (updatePost B P (text "Again") 500) s').2 = 404%N
  ∧ status (run (deletePost B P) s').2 = 404%N.
Proof.
  apply (soft_deleted_post_is_gone noSearch [CreatePost A reply 31 400; GetThread None T]
           s3 P Examples.post_P_deleted); by vm_compute.
Defined.

(** X14. A soft-deleted thread stays closed whatever requests follow:
    reading it, liking it, editing it, deleting it, listing its posts and
    replying to it (with a content) are answered 404. *)
Theorem soft_deleted_thread_is_closed (textSearch : list N → Thread.t → bool)
    (reqs : list Request) (s : Store) (id : N) (x : Thread.t)
    (user : Actor) (reader : option Actor) (changes : Changes)
    (body : PostRoutes.Body) (newId : N) (now : Z) (page limit : option Z) :
  threads s !! id = Some x → Thread.isActive x = false →
  PostRoutes.threadId body = Some id → PostRoutes.content body ≠ [] →
  let s' := replay textSearch reqs s in
  status (run (getThread reader id) s').2 = 404%N
  ∧ status (run (likeThread user id now) s').2 = 404%N
  ∧ status (run (updateThread user id changes) s').2 = 404%N
  ∧ status (run (deleteThread user id) s').2 = 404%N
  ∧ status (run (getPosts reader id page limit) s').2 = 404%N
  ∧ status (run (createPost user body newId now) s').2 = 404%N.
Proof.
  intros Hx Hinactive Hbody Hcontent. simpl.
  destruct (replay_thread_inactive textSearch reqs s id x Hx Hinactive)
    as (x' & Hx' & Hinactive').
  pose proof (inactive_thread_not_found _ _ _ Hx' Hinactive') as Hnone.
  unfold getThread, likeThread, updateThread, deleteThread, getPosts, createPost.
  rewrite Hbody, (bool_decide_eq_false_2 (PostRoutes.content body = [])) by done.
  unfold_handler. simpl. by rewrite Hnone.
Qed.

Lemma soft_deleted_thread_is_closed_witness :
  let s' := replay noSearch [LikePost A P 400; DeletePost root P] Examples.s2_closed in
  status (run (getThread None T) s').2 = 404%N
  ∧ status (run (likeThread A T 500) s').2 = 404%N
  ∧ status (run (updateThread A T Examples.retitle) s').2 = 404%N
  ∧ status (run (deleteThread A T) s').2 = 404%N
  ∧ status (run (getPosts None T None None) s').2 = 404%N
  ∧ status (run (createPost A reply 31 500) s').2 = 404%N.
Proof.
  apply (soft_deleted_thread_is_closed noSearch [LikePost A P 400; DeletePost root P]
           Examples.s2_closed T Examples.thread_T_closed); by vm_compute.
Defined.

(** ** The threads router *)

(** X15. A DELETE /threads/:id that answers 200 marks the thread inactive
    and takes one from the [threadCount] of its category, and that is all:
    its posts stay as they are, no user's [postCount] changes (the author's
    is not given back), and no category's [postCount] changes. *)
Theorem deleteThread_leaves_replies (s : Store) (user : Actor) (id : N) :
  let s' := (run (deleteThread user id) s).1 in
  status (run (deleteThread user id) s).2 = 200%N →
  ∃ thread,
    threads s !! id = Some thread ∧ Thread.isActive thread = true
    ∧ threads s' !! id = Some (Thread.set_isActive false thread)
    ∧ (∀ i, i ≠ id → threads s' !! i = threads s !! i)
    ∧ (∀ c, categoryThreadCountOf s' c =
            if decide (c = Thread.category thread)
            then (λ n, n - 1) <$> categoryThreadCountOf s c
            else categoryThreadCountOf s c)
    ∧ (∀ c, categoryPostCountOf s' c = categoryPostCountOf s c)
    ∧ users s' = users s
    ∧ posts s' = posts s.
Proof.
  simpl. intros Hok.
  destruct (deleteThread_effect s user id)
    as [(_ & _ & Hfail)|(_ & _ & thread & Hthread & Hact & _ & ->)]; [done|].
  exists thread. simpl. split_and!; try done.
  - apply lookup_insert_eq.
  - intros i Hne. by rewrite lookup_insert_ne.
  - intros c. unfold categoryThreadCountOf. simpl. rewrite lookup_alter.
    repeat case_decide; subst; try done.
    by destruct (categories s !! Thread.category thread).
  - intros c. unfold categoryPostCountOf. simpl. rewrite lookup_alter.
    case_decide; subst; [|done].
    by destruct (categories s !! Thread.category thread).
Qed.

Lemma deleteThread_leaves_replies_witness :
  posts Examples.s2_closed = posts s2
  ∧ users Examples.s2_closed = users s2
  ∧ categoryThreadCountOf Examples.s2_closed General = Some 0
  ∧ categoryPostCountOf Examples.s2_closed General = Some 1.
Proof.
  destruct (deleteThread_leaves_replies s2 A T)
    as (thread & Hthread & _ & _ & _ & Hcount & Hposts & Husers & Hsame);
    [by vm_compute|].
  assert (thread = thread_T) as -> by (vm_compute in Hthread; vm_compute; congruence).
  split_and!.
  - exact Hsame.
  - exact Husers.
  - unfold Examples.s2_closed. rewrite Hcount. by vm_compute.
  - unfold Examples.s2_closed. rewrite Hposts. by vm_compute.
Defined.

(** X16. A POST /threads that answers 201 followed by a DELETE of the new
    thread that answers 200 leaves every category's [threadCount] as it was
    before the two, while the creator's [postCount] stays one higher; the
    thread stays in the store, inactive. *)
Theorem create_then_delete_thread (s s1 s2 : Store) (user deleter : Actor)
    (body : ThreadRoutes.Body) (newId : N) (now : Z) (r1 r2 : Response) :
  run (createThread user body newId now) s = (s1, r1) → status r1 = 201%N →
  run (deleteThread deleter newId) s1 = (s2, r2) → status r2 = 200%N →
  (∀ c, categoryThreadCountOf s2 c = categoryThreadCountOf s c)
  ∧ userPostCountOf s2 (actor_id user)
    = (λ n, n + 1) <$> userPostCountOf s (actor_id user)
  ∧ Thread.isActive <$> threads s2 !! newId = Some false.
Proof.
  intros Hrun1 Hok1 Hrun2 Hok2.
  pose proof (createThread_effect s user body newId now) as Hcreate.
  simpl in Hcreate. rewrite Hrun1 in Hcreate. simpl in Hcreate.
  pose proof (deleteThread_effect s1 deleter newId) as Hdelete.
  simpl in Hdelete. rewrite Hrun2 in Hdelete. simpl in Hdelete.
  destruct Hcreate
    as [(_ & _ & Hfail)|(_ & _ & category & c & _ & _ & _ & Hc & _ & _ & _ & ->)];
    [done|].
  destruct Hdelete as [(_ & _ & Hfail)|(_ & _ & thread & Hthread & _ & _ & ->)];
    [done|].
  simpl in *. rewrite lookup_insert_eq in Hthread. injection Hthread as <-.
  unfold categoryThreadCountOf, userPostCountOf. simpl. split_and!.
  - intros i. destruct (decide (i = category)) as [->|Hne].
    + rewrite !lookup_alter_eq, Hc. simpl. f_equal. lia.
    + by rewrite !lookup_alter_ne.
  - rewrite lookup_alter_eq. by destruct (users s !! actor_id user).
  - by rewrite lookup_insert_eq.
Qed.

Lemma create_then_delete_thread_witness :
  (∀ c, categoryThreadCountOf (run (deleteThread root T) s1).1 c
        = categoryThreadCountOf s0 c)
  ∧ userPostCountOf (run (deleteThread root T) s1).1 (actor_id A)
    = (λ n, n + 1) <$> userPostCountOf s0 (actor_id A)
  ∧ Thread.isActive <$> threads (run (deleteThread root T) s1).1 !! T = Some false.
Proof.
  apply (create_then_delete_thread s0 s1 _ A root Examples.opening T 100
           (run (createThread A Examples.opening T 100) s0).2
           (run (deleteThread root T) s1).2); by vm_compute.
Defined.

(** X17. GET /threads/:id on an active thread answers 200, adds exactly one
    to its views and changes nothing else in the store; the response shows
    the thread with the view already counted and the number of its likes.
    On a missing or soft-deleted thread it answers 404 and counts
    nothing. *)
Theorem getThread_counts_a_view (s : Store) (reader : option Actor) (id : N) :
  let out := run (getThread reader id) s in
  (∀ thread, threads s !! id = Some thread → Thread.isActive thread = true →
     status out.2 = 200%N
     ∧ out.1 = set_threads <[id := Thread.incViews 1 thread]> s
     ∧ viewsOf out.1 id = Some (Thread.views thread + 1)
     ∧ ∃ view, data out.2 = Some (ThreadDetail view)
         ∧ pt_doc (tv_thread view) = Thread.incViews 1 thread
         ∧ tv_likeCount view = length (Thread.likes thread)
         ∧ tv_hasLiked view = hasLikedFor reader (Thread.likes thread))
  ∧ (whenActive Thread.isActive (threads s !! id) = None →
     status out.2 = 404%N ∧ out.1 = s).
Proof.
  simpl. unfold getThread. unfold_handler. simpl. split.
  - intros thread Hthread Hact. rewrite Hthread. simpl. rewrite Hact. simpl.
    split_and!; try done.
    + unfold viewsOf. simpl. by rewrite lookup_insert_eq.
    + by eexists.
  - by intros ->.
Qed.

Lemma getThread_counts_a_view_witness :
  status (run (getThread (Some B) T) s2).2 = 200%N
  ∧ viewsOf (run (getThread (Some B) T) s2).1 T = Some 1
  ∧ status (run (getThread (Some B) P) s2).2 = 404%N
  ∧ (run (getThread (Some B) P) s2).1 = s2.
Proof.
  destruct (proj1 (getThread_counts_a_view s2 (Some B) T) thread_T)
    as (Hok & _ & Hviews & _); [by vm_compute | by vm_compute |].
  destruct (proj2 (getThread_counts_a_view s2 (Some B) P)) as [Hmissing Hsame];
    [by vm_compute|].
  by split_and!.
Defined.

(** X18. A PUT /threads/:id that answers 200 replaces the title (trimmed)
    when a title is sent, the content when a content is sent and the tags
    (each trimmed) when tags are sent, and changes nothing else in the
    thread or in the store; with none of the three in the body the store is
    left exactly as it was. *)
Theorem updateThread_changes_text_only (s : Store) (user : Actor) (id : N)
    (body : Changes) :
  let out := run (updateThread user id body) s in
  status out.2 = 200%N →
  ∃ thread,
    threads s !! id = Some thread
    ∧ out.1 = set_threads
        <[id := Thread.mk
                  (if bool_decide (new_title body = []) then Thread.title thread
                   else trim (new_title body))
                  (if bool_decide (new_content body = []) then Thread.content thread
                   else new_content body)
                  (Thread.author thread) (Thread.category thread)
                  (Thread.isPinned thread) (Thread.isLocked thread)
                  (Thread.isActive thread) (Thread.views thread)
                  (Thread.replyCount thread) (Thread.lastReply thread)
                  (match new_tags body with
                   | Some tags => map trim tags
                   | None => Thread.tags thread
                   end)
                  (Thread.likes thread) (Thread.createdAt thread)]> s
    ∧ (new_title body = [] → new_content body = [] → new_tags body = None →
       out.1 = s).
Proof.
  simpl. intros Hok.
  destruct (updateThread_effect s user id body)
    as [(_ & _ & Hfail)|(_ & _ & thread & Hthread & _ & _ & _ & Hstore)]; [done|].
  exists thread. split; [done|]. rewrite Hstore. split.
  - do 2 f_equal. unfold revised. destruct thread.
    by repeat case_bool_decide; destruct (new_tags body).
  - intros Htitle Hcontent Htags. unfold revised.
    rewrite Htitle, Hcontent, Htags. simpl.
    destruct s. unfold set_threads. simpl in *. f_equal. by apply insert_id.
Qed.

Lemma updateThread_changes_text_only_witness :
  ∃ thread,
    threads s2 !! T = Some thread
    ∧ (run (updateThread A T Examples.retitle) s2).1
      = set_threads
          <[T := Thread.mk (text "Hello again") (Thread.content thread)
                   (Thread.author thread) (Thread.category thread)
                   (Thread.isPinned thread) (Thread.isLocked thread)
                   (Thread.isActive thread) (Thread.views thread)
                   (Thread.replyCount thread) (Thread.lastReply thread)
                   (Thread.tags thread) (Thread.likes thread)
                   (Thread.createdAt thread)]> s2.
Proof.
  destruct (updateThread_changes_text_only s2 A T Examples.retitle)
    as (thread & Hthread & Hstore & _); [by vm_compute|].
  exists thread. split; [exact Hthread|]. exact Hstore.
Defined.

Lemma Forall_maxlength (n : N) (texts : list (list N)) :
  forallb (maxlength n) texts = true
  ↔ Forall (λ text, (N.of_nat (length text) ≤ n)%N) texts.
Proof.
  induction texts as [|text texts IH]; simpl.
  - split; [intros _; constructor | done].
  - rewrite andb_true_iff, Forall_cons, IH, maxlength_le. done.
Qed.

(** X19. POST /threads answers 201 exactly when the body has a title, a
    content and a category, the category is active, the title trimmed of
    white space has 1 to 200 code units, the content at most 10000, each
    trimmed tag at most 30, and the new id is not taken.  A title of white
    space only passes the first check and fails the validation. *)
Theorem createThread_succeeds_iff (s : Store) (user : Actor) (body : ThreadRoutes.Body)
    (newId : N) (now : Z) :
  status (run (createThread user body newId now) s).2 = 201%N
  ↔ ∃ category c,
      category_id body = Some category
      ∧ title body ≠ [] ∧ content body ≠ []
      ∧ categories s !! category = Some c ∧ Category.isActive c = true
      ∧ trim (title body) ≠ []
      ∧ (N.of_nat (length (trim (title body))) ≤ 200)%N
      ∧ (N.of_nat (length (content body)) ≤ 10000)%N
      ∧ Forall (λ tag, (N.of_nat (length (trim tag)) ≤ 30)%N) (orEmpty (tags body))
      ∧ threads s !! newId = None.
Proof.
  assert (content body ≠ [] → ∀ category,
    Thread_validate (fresh user body category now) = true
    ↔ trim (title body) ≠ []
      ∧ (N.of_nat (length (trim (title body))) ≤ 200)%N
      ∧ (N.of_nat (length (content body)) ≤ 10000)%N
      ∧ Forall (λ tag, (N.of_nat (length (trim tag)) ≤ 30)%N) (orEmpty (tags body)))
    as Hvalid.
  { intros Hne category. unfold Thread_validate, fresh. simpl.
    rewrite !andb_true_iff, !required_nonempty, !maxlength_le, Forall_maxlength.
    rewrite Forall_fmap. unfold compose. tauto. }
  unfold createThread.
  destruct (category_id body) as [category|];
    [|split; [done | by intros (? & ? & ? & _)]].
  case_bool_decide as Htitle; simpl;
    [split; [done | by intros (? & ? & _ & ? & _)]|].
  case_bool_decide as Hcontent; simpl;
    [split; [done | by intros (? & ? & _ & _ & ? & _)]|].
  unfold_handler. simpl.
  destruct (whenActive Category.isActive (categories s !! category)) as [c|] eqn:Hc;
    simpl.
  2: { split; [done|]. intros (? & c & [= <-] & _ & _ & Hc' & Hact & _).
       assert (whenActive Category.isActive (categories s !! category) = Some c)
         as Hsome by by apply whenActive_Some.
       congruence. }
  apply whenActive_Some in Hc as [Hc Hact].
  fold (fresh user body category now).
  destruct (Thread_validate (fresh user body category now)) eqn:Hv; simpl.
  2: { split; [done|]. intros (? & ? & [= <-] & _ & _ & _ & _ & H1 & H2 & H3 & H4 & _).
       assert (Thread_validate (fresh user body category now) = true) as Hv'
         by by apply (Hvalid Hcontent).
       congruence. }
  apply (Hvalid Hcontent) in Hv as (H1 & H2 & H3 & H4).
  destruct (threads s !! newId) eqn:Hnew; simpl.
  { split; [done|]. by intros (? & ? & _ & _ & _ & _ & _ & _ & _ & _ & _ & ?). }
  split; [intros _|done].
  exists category, c. by split_and!.
Qed.

Lemma createThread_succeeds_iff_witness :
  status (run (createThread A Examples.opening T 100) s0).2 = 201%N.
Proof.
  apply (proj2 (createThread_succeeds_iff s0 A Examples.opening T 100)).
  exists General, Examples.category_General.
  split_and!; by vm_compute.
Defined.

(** ** Listings *)

Lemma insertBy_Permutation {A} (le : A → A → bool) (x : A) (l : list A) :
  insertBy le x l ≡ₚ x :: l.
Proof.
  induction l as [|y l IH]; simpl; [done|].
  destruct (le x y); [done|]. rewrite IH. apply Permutation_swap.
Qed.

Lemma sortBy_Permutation {A} (le : A → A → bool) (l : list A) : sortBy le l ≡ₚ l.
Proof.
  unfold sortBy. induction l as [|x l IH]; simpl; [done|].
  by rewrite insertBy_Permutation, IH.
Qed.

Section sorting.
Context {A : Type} (le : A → A → bool).
Hypothesis le_total : ∀ a b, le a b = true ∨ le b a = true.
Hypothesis le_trans : ∀ a b c, le a b = true → le b c = true → le a c = true.

Lemma insertBy_sorted (x : A) (l : list A) :
  StronglySorted (λ a b, le a b = true) l →
  StronglySorted (λ a b, le a b = true) (insertBy le x l).
Proof.
  induction 1 as [|y l Hsorted IH Hy]; simpl.
  - repeat constructor.
  - destruct (le x y) eqn:Hxy.
    + constructor; [by constructor|]. constructor; [done|].
      eapply Forall_impl; [exact Hy|]. intros z Hz. by eapply le_trans.
    + constructor; [done|]. rewrite insertBy_Permutation. constructor; [|done].
      destruct (le_total x y); congruence.
Qed.

Lemma sortBy_sorted (l : list A) :
  StronglySorted (λ a b, le a b = true) (sortBy le l).
Proof.
  unfold sortBy. induction l as [|x l IH]; simpl; [constructor|].
  by apply insertBy_sorted.
Qed.
End sorting.

Lemma StronglySorted_take_drop {A} (R : relation A) (l : list A) (skip n : nat) :
  StronglySorted R l → StronglySorted R (take n (drop skip l)).
Proof.
  intros Hl.
  rewrite <- (take_drop skip l) in Hl. apply StronglySorted_app_1_r in Hl.
  rewrite <- (take_drop n (drop skip l)) in Hl. by apply StronglySorted_app_1_l in Hl.
Qed.

Lemma skipLimit_page {A} (p l : Z) (docs : list A) :
  1 ≤ p → 1 ≤ l →
  skipLimit ((p - 1) * l) (l * 1) docs
  = Some (take (Z.to_nat l) (drop (Z.to_nat ((p - 1) * l)) docs)).
Proof.
  intros Hp Hl. unfold skipLimit.
  rewrite (proj2 (Z.ltb_ge _ _)) by nia.
  rewrite (proj2 (Z.eqb_neq _ _)) by lia.
  do 3 f_equal. lia.
Qed.

Lemma page_length {A} (p l : Z) (docs : list A) :
  1 ≤ p → 1 ≤ l →
  Z.of_nat (length (take (Z.to_nat l) (drop (Z.to_nat ((p - 1) * l)) docs)))
  = Z.min l (Z.max 0 (Z.of_nat (length docs) - (p - 1) * l)).
Proof. intros Hp Hl. rewrite length_take, length_drop. nia. Qed.

Lemma page_sublist {A} (docs : list A) (skip n : nat) :
  take n (drop skip docs) `sublist_of` docs.
Proof. etrans; [apply sublist_take | apply sublist_drop]. Qed.

(** X20. On an active thread, the page [p ≥ 1] of GET /posts/thread/:id with
    limit [l ≥ 1] lists posts of the store that are active and of this
    thread, each once, oldest first; there are
    [min l (max 0 (n - (p - 1) * l))] of them, [n] being the number of active
    posts of the thread; each comes with the number of its likes and with
    whether the reader is among its likers. *)
Theorem getPosts_page (s : Store) (reader : option Actor) (threadId : N)
    (thread : Thread.t) (p l : Z) :
  threads s !! threadId = Some thread → Thread.isActive thread = true →
  1 ≤ p → 1 ≤ l →
  ∃ items pg,
    data (run (getPosts reader threadId (Some p) (Some l)) s).2
      = Some (PostsPage items pg)
    ∧ Forall (λ v,
        posts s !! pp_id (pv_post v) = Some (pp_doc (pv_post v))
        ∧ Post.thread (pp_doc (pv_post v)) = threadId
        ∧ Post.isActive (pp_doc (pv_post v)) = true
        ∧ pv_likeCount v = length (Post.likes (pp_doc (pv_post v)))
        ∧ pv_hasLiked v = hasLikedFor reader (Post.likes (pp_doc (pv_post v)))) items
    ∧ NoDup ((λ v, pp_id (pv_post v)) <$> items)
    ∧ StronglySorted
        (λ a b, Post.createdAt (pp_doc (pv_post a)) ≤ Post.createdAt (pp_doc (pv_post b)))
        items
    ∧ Z.of_nat (length items)
      = Z.min l (Z.max 0 (activePostsIn s threadId - (p - 1) * l)).
Proof.
  intros Hthread Hact Hp Hl.
  unfold getPosts. rewrite !parseIntOr_pos by done.
  unfold_handler. simpl. rewrite Hthread. simpl. rewrite Hact. simpl.
  rewrite skipLimit_page by done. simpl.
  set (found := filter (λ d : N * Post.t, Post.thread d.2 = threadId ∧ Post.isActive d.2)
                       (map_to_list (posts s))).
  set (sorted := sortBy (λ a b : N * Post.t, Post.createdAt a.2 <=? Post.createdAt b.2)
                        found).
  set (docs := take (Z.to_nat l) (drop (Z.to_nat ((p - 1) * l)) sorted)).
  assert (docs `sublist_of` sorted) as Hsub by apply page_sublist.
  assert (sorted ≡ₚ found) as Hperm by apply sortBy_Permutation.
  eexists _, _. split; [done|]. split_and!.
  - apply Forall_fmap, Forall_forall. intros [i q] Hin. simpl.
    assert ((i, q) ∈ found) as Hfound.
    { rewrite <- Hperm. by eapply elem_of_sublist. }
    apply list_elem_of_filter in Hfound as [[Hq1 Hq2] Hq3]. simpl in *.
    apply elem_of_map_to_list in Hq3. split_and!; try done.
    by apply Is_true_true.
  - rewrite <- list_fmap_compose.
    apply (sublist_NoDup _ (sorted.*1)); [|by apply fmap_sublist].
    rewrite Hperm. apply (sublist_NoDup _ ((map_to_list (posts s)).*1)).
    + apply NoDup_fst_map_to_list.
    + apply fmap_sublist, sublist_filter.
  - apply StronglySorted_fmap
      with (R1 := λ a b : N * Post.t,
                    (Post.createdAt a.2 <=? Post.createdAt b.2) = true).
    { intros a b Hab. simpl. by apply Z.leb_le. }
    apply StronglySorted_take_drop, sortBy_sorted.
    + intros a b. rewrite !Z.leb_le. lia.
    + intros a b c. rewrite !Z.leb_le. lia.
  - rewrite length_fmap. unfold docs. rewrite page_length by done.
    rewrite (Permutation_length Hperm). unfold found.
    pose proof (count_scan (λ x, Post.thread x = threadId ∧ Post.isActive x) (posts s))
      as Hcount.
    cbv beta in Hcount. by rewrite Hcount.
Qed.

Lemma getPosts_page_witness :
  ∃ items pg,
    data (run (getPosts (Some A) T (Some 1) (Some 10)) s2).2 = Some (PostsPage items pg)
    ∧ Forall (λ v,
        posts s2 !! pp_id (pv_post v) = Some (pp_doc (pv_post v))
        ∧ Post.thread (pp_doc (pv_post v)) = T
        ∧ Post.isActive (pp_doc (pv_post v)) = true
        ∧ pv_likeCount v = length (Post.likes (pp_doc (pv_post v)))
        ∧ pv_hasLiked v = hasLikedFor (Some A) (Post.likes (pp_doc (pv_post v)))) items
    ∧ NoDup ((λ v, pp_id (pv_post v)) <$> items)
    ∧ StronglySorted
        (λ a b, Post.createdAt (pp_doc (pv_post a)) ≤ Post.createdAt (pp_doc (pv_post b)))
        items
    ∧ Z.of_nat (length items) = Z.min 10 (Z.max 0 (activePostsIn s2 T - (1 - 1) * 10)).
Proof.
  apply (getPosts_page s2 (Some A) T thread_T 1 10); try lia; by vm_compute.
Defined.




(** X21. The page [p ≥ 1] of GET /threads with limit [l ≥ 1] lists threads
    of the store that are active, of the category asked for and matched by
    the search asked for, each once; there are
    [min l (max 0 (n - (p - 1) * l))] of them, [n] being the number of matching
    threads. *)
Theorem getThreads_page (textSearch : list N → Thread.t → bool) (s : Store)
    (reader : option Actor) (q : Query) (p l : Z) :
  page q = Some p → limit q = Some l → 1 ≤ p → 1 ≤ l →
  ∃ items pg,
    data (run (getThreads textSearch reader q) s).2 = Some (ThreadsPage items pg)
    ∧ Forall (λ t,
        threads s !! pt_id t = Some (pt_doc t)
        ∧ Thread.isActive (pt_doc t) = true
        ∧ (∀ c, category q = Some c → Thread.category (pt_doc t) = c)
        ∧ (search q ≠ [] → textSearch (search q) (pt_doc t) = true)) items
    ∧ NoDup (pt_id <$> items)
    ∧ Z.of_nat (length items)
      = Z.min l (Z.max 0 (countWhere (λ x, matches textSearch q x) (threads s)
                          - (p - 1) * l)).
Proof.
  intros Hpage Hlimit Hp Hl.
  unfold getThreads. rewrite Hpage, Hlimit, !parseIntOr_pos by done.
  unfold_handler. simpl. rewrite skipLimit_page by done. simpl.
  set (found := filter (λ d : N * Thread.t, matches textSearch q d.2)
                       (map_to_list (threads s))).
  set (sorted := sortBy (λ a b : N * Thread.t, notGt (sortOption (sort q) a.2 b.2))
                        found).
  set (docs := take (Z.to_nat l) (drop (Z.to_nat ((p - 1) * l)) sorted)).
  assert (docs `sublist_of` sorted) as Hsub by apply page_sublist.
  assert (sorted ≡ₚ found) as Hperm by apply sortBy_Permutation.
  eexists _, _. split; [done|]. split_and!.
  - apply Forall_fmap, Forall_forall. intros [i x] Hin. simpl.
    assert ((i, x) ∈ found) as Hfound.
    { rewrite <- Hperm. by eapply elem_of_sublist. }
    apply list_elem_of_filter in Hfound as [Hmatch Hx]. simpl in *.
    apply elem_of_map_to_list in Hx. apply Is_true_true in Hmatch.
    unfold matches in Hmatch. rewrite !andb_true_iff, orb_true_iff in Hmatch.
    destruct Hmatch as [[Hact Hcat] Hsearch]. split_and!; try done.
    + intros c Hc. rewrite Hc in Hcat. by apply bool_decide_eq_true in Hcat.
    + intros Hne. destruct Hsearch as [Hempty|?]; [|done].
      by apply bool_decide_eq_true in Hempty.
  - rewrite <- list_fmap_compose.
    apply (sublist_NoDup _ (sorted.*1)); [|by apply fmap_sublist].
    rewrite Hperm. apply (sublist_NoDup _ ((map_to_list (threads s)).*1)).
    + apply NoDup_fst_map_to_list.
    + apply fmap_sublist, sublist_filter.
  - rewrite length_fmap. unfold docs. rewrite page_length by done.
    rewrite (Permutation_length Hperm). unfold found.
    pose proof (count_scan (λ x, matches textSearch q x) (threads s)) as Hcount.
    cbv beta in Hcount. by rewrite Hcount.
Qed.

Lemma getThreads_page_witness :
  ∃ items pg,
    data (run (getThreads noSearch None firstPage) s2).2 = Some (ThreadsPage items pg)
    ∧ Forall (λ t,
        threads s2 !! pt_id t = Some (pt_doc t)
        ∧ Thread.isActive (pt_doc t) = true
        ∧ (∀ c, category firstPage = Some c → Thread.category (pt_doc t) = c)
        ∧ (search firstPage ≠ [] → noSearch (search firstPage) (pt_doc t) = true)) items
    ∧ NoDup (pt_id <$> items)
    ∧ Z.of_nat (length items)
      = Z.min 10 (Z.max 0 (countWhere (λ x, matches noSearch firstPage x) (threads s2)
                           - (1 - 1) * 10)).
Proof.
  apply (getThreads_page noSearch s2 None firstPage 1 10); try lia; by vm_compute.
Defined.



(** ** White space *)

Lemma trimStart_blank (text : list N) :
  Forall (λ c, isWhiteSpace c = true) text → trimStart text = [].
Proof. induction 1 as [|c text Hc _ IH]; simpl; [done|]. by rewrite Hc. Qed.

Lemma trim_blank (text : list N) :
  Forall (λ c, isWhiteSpace c = true) text → trim text = [].
Proof. intros Hblank. unfold trim. by rewrite (trimStart_blank text Hblank). Qed.

(** X23. POST /threads with a title made of white space only, a content and
    an active category is not answered 400: the title passes the first
    check, is trimmed to nothing, fails the validation, and the request is
    answered 500 with the store left as it was. *)
Theorem createThread_blank_title (s : Store) (user : Actor) (body : ThreadRoutes.Body)
    (newId : N) (now : Z) (category : N) (c : Category.t) :
  title body ≠ [] → Forall (λ u, isWhiteSpace u = true) (title body) →
  content body ≠ [] →
  category_id body = Some category →
  categories s !! category = Some c → Category.isActive c = true →
  status (run (createThread user body newId now) s).2 = 500%N
  ∧ (run (createThread user body newId now) s).1 = s.
Proof.
  intros Htitle Hblank Hcontent Hbody Hc Hact.
  unfold createThread. rewrite Hbody.
  rewrite !bool_decide_eq_false_2 by done. simpl.
  unfold_handler. simpl. rewrite Hc. simpl. rewrite Hact. simpl.
  unfold Thread_validate. simpl. rewrite (trim_blank _ Hblank). by simpl.
Qed.

Lemma createThread_blank_title_witness :
  let body := {| title := text "   "; content := text "First";
                 category_id := Some General; tags := None |} in
  status (run (createThread A body T 100) s0).2 = 500%N
  ∧ (run (createThread A body T 100) s0).1 = s0.
Proof.
  apply (createThread_blank_title s0 A _ T 100 General Examples.category_General);
    try by vm_compute.
  repeat constructor.
Defined.

(** ** A soft-deleted category *)



(** X25. Soft-deleting a category does not close its threads: every POST
    /posts is answered after DELETE /categories/:id as it would have been
    before, and a reply that is accepted still adds one to the [postCount]
    of the soft-deleted category. *)
Theorem deleted_category_still_takes_replies (s : Store) (id : N) (user : Actor)
    (body : PostRoutes.Body) (newId : N) (now : Z) :
  let s' := (CategoryRoutes.deleteCategory id s).1 in
  (run (createPost user body newId now) s').2 = (run (createPost user body newId now) s).2
  ∧ (∀ threadId thread,
       status (run (createPost user body newId now) s').2 = 201%N →
       PostRoutes.threadId body = Some threadId →
       threads s !! threadId = Some thread → Thread.category thread = id →
       categoryPostCountOf (run (createPost user body newId now) s').1 id
       = (λ n, n + 1) <$> categoryPostCountOf s id).
Proof.
  simpl. unfold CategoryRoutes.deleteCategory.
  destruct (categories s !! id) as [c|] eqn:Hc; simpl.
  - split.
    + unfold createPost. unfold_handler. simpl.
      destruct (PostRoutes.threadId body) as [threadId|]; [|done].
      case_bool_decide; [done|]. simpl.
      destruct (whenActive Thread.isActive (threads s !! threadId)); simpl; [|done].
      destruct (Thread.isLocked _); simpl; [done|].
      destruct (parentPostId body); simpl.
      * destruct (whenActive _ (posts s !! _)); simpl; [|done].
        destruct (negb (Post_validate _)); simpl; [done|].
        destruct (posts s !! newId); simpl; [done|].
        by rewrite !lookup_insert_eq.
      * destruct (negb (Post_validate _)); simpl; [done|].
        destruct (posts s !! newId); simpl; [done|].
        by rewrite !lookup_insert_eq.
    + intros threadId thread Hok Hbody Hthread Hcat.
      destruct (createPost_effect (set_categories <[id := CategoryRoutes.deactivated c]> s)
                  user body newId now)
        as [(_ & _ & Hfail)|(_ & _ & t & x & Hb & _ & Hx & _ & _ & _ & ->)]; [done|].
      simpl in *. assert (t = threadId) as -> by congruence.
      assert (x = thread) as -> by congruence.
      unfold categoryPostCountOf. simpl.
      by rewrite Hcat, lookup_alter_eq, lookup_insert_eq, Hc.
  - split; [done|].
    intros threadId thread Hok Hbody Hthread Hcat.
    destruct (createPost_effect s user body newId now)
      as [(_ & _ & Hfail)|(_ & _ & t & x & Hb & _ & Hx & _ & _ & _ & ->)]; [done|].
    assert (t = threadId) as -> by congruence.
    assert (x = thread) as -> by congruence.
    unfold categoryPostCountOf. simpl. by rewrite Hcat, lookup_alter_eq, Hc.
Qed.

Lemma deleted_category_still_takes_replies_witness :
  let s' := (CategoryRoutes.deleteCategory General s1).1 in
  categoryPostCountOf (run (createPost B reply P 200) s').1 General
  = (λ n, n + 1) <$> categoryPostCountOf s1 General.
Proof.
  apply (proj2 (deleted_category_still_takes_replies s1 General B reply P 200)
           T Examples.thread_T_new); by vm_compute.
Defined.
